(** * autonx: the NuttShell (NSH) console driver

    A shallow embedding of [src/autonx.py] (class [NSHDriver]) and the
    properties of its command executor, escape-sequence filter and
    activation life cycle.

    Python values are modelled as follows.
    - [str] is a sequence of Unicode code points: [list N].
    - [bytes] is [list byte].
    - [int] is [Z].
    - A compiled [re] pattern is a term of [regex], run by a backtracking
      matcher with Python's priorities (first alternative first, greedy
      star).
    - Exceptions are the [Raise] outcome of the driver monad [M]; the
      console (labgrid's [ConsoleProtocol]) is an environment that answers
      every [expect] from a script and records every call in a trace.
    - The binding state that labgrid keeps for the driver, and that the
      guard [Driver.check_active] of [run] reads, is the argument [active]
      of [run]. *)

From Stdlib Require Import Strings.String Strings.Ascii Strings.Byte.
From Stdlib Require Import List ZArith NArith Bool Lia.
From Equations Require Import Equations.
From Equations.Prop Require Import Logic.
Import ListNotations.

Set Implicit Arguments.
Local Open Scope N_scope.

(** ** Text *)

Definition char := N.
Definition str := list char.
Definition bytes := list byte.

(** The code point of an ASCII character, to write patterns as the source
    writes them. *)
Definition ch (a : ascii) : char := N_of_ascii a.

(** A Python string literal without escapes. *)
Definition lit (s : string) : str := List.map ch (list_ascii_of_string s).

(** A Python bytes literal without escapes. *)
Definition blit (s : string) : bytes := list_byte_of_string s.

Definition ESC : char := 27.    (* "\x1b" *)
Definition CSI : char := 155.   (* "\x9b" *)
Definition CR : char := 13.     (* "\r" *)
Definition LF : char := 10.     (* "\n" *)

(** ** Regular expressions (the fragment of [re] the driver uses) *)

(** A character set [[...]] or [[^...]]: inclusive ranges of code points. *)
Definition in_ranges (rs : list (char * char)) (c : char) : bool :=
  existsb (fun r => (fst r <=? c) && (c <=? snd r)) rs.

Inductive regex : Type :=
| Lit (c : char)                       (* a literal character *)
| Set_ (rs : list (char * char))       (* [...] *)
| NotSet (rs : list (char * char))     (* [^...] *)
| Dot                                  (* . : anything but "\n" *)
| Seq (r1 r2 : regex)                  (* r1 r2 *)
| Alt (r1 r2 : regex)                  (* r1|r2 *)
| Star (r : regex).                    (* r*, greedy, r a one-character pattern *)

(** One-character patterns. A [Star] body that is not one of them matches
    no character. *)
Definition accepts (r : regex) (c : char) : bool :=
  match r with
  | Lit c' => c =? c'
  | Set_ rs => in_ranges rs c
  | NotSet rs => negb (in_ranges rs c)
  | Dot => negb (c =? LF)
  | _ => false
  end.

(** Greedy repetition with backtracking: take one more character while the
    class accepts; when the rest fails, give the character back. *)
Fixpoint star (p : char -> bool) (k : str -> option str) (s : str) : option str :=
  match s with
  | c :: t =>
      if p c then
        match star p k t with
        | Some r => Some r
        | None => k s
        end
      else k s
  | [] => k []
  end.

(** [exec r s k]: match [r] at the start of [s], then the continuation [k]
    on what is left; the result is what is left after the whole match. *)
Fixpoint exec (r : regex) (s : str) (k : str -> option str) : option str :=
  match r with
  | Seq a b => exec a s (fun t => exec b t k)
  | Alt a b =>
      match exec a s k with
      | Some x => Some x
      | None => exec b s k
      end
  | Star a => star (accepts a) k s
  | one =>
      match s with
      | c :: t => if accepts one c then k t else None
      | [] => None
      end
  end.

(** [pattern.match(s)]: a match anchored at the start of [s]; [Some rest]
    is the text after the match. *)
Definition re_match (r : regex) (s : str) : option str := exec r s Some.

(** The literal text [s] as a pattern, followed by [r]. *)
Fixpoint lits (s : str) (r : regex) : regex :=
  match s with
  | [] => r
  | c :: t => Seq (Lit c) (lits t r)
  end.

(** The least number of characters a match consumes. *)
Fixpoint min_len (r : regex) : nat :=
  match r with
  | Seq a b => min_len a + min_len b
  | Alt a b => Nat.min (min_len a) (min_len b)
  | Star _ => 0
  | _ => 1
  end.

(** ** The escape-sequence filter *)

(** [[@-_a-z]] *)
Definition final_set : list (char * char) :=
  [(ch "@", ch "_"); (ch "a", ch "z")].

(** [re.compile(r"(\x1b\[|\x9b)[^@-_a-z]*[@-_a-z]|\x1b[@-_a-z]")] *)
Definition re_vt100 : regex :=
  Alt (Seq (Alt (Seq (Lit ESC) (Lit (ch "["))) (Lit CSI))
           (Seq (Star (NotSet final_set)) (Set_ final_set)))
      (Seq (Lit ESC) (Set_ final_set)).

Lemma exec_min_len (r : regex) :
  forall s k x, exec r s k = Some x ->
  exists t, k t = Some x /\ (length t + min_len r <= length s)%nat.
Proof.
  assert (one : forall (q : regex) (s : str) (k : str -> option str) x,
             match s with
             | c :: t => if accepts q c then k t else None
             | [] => None
             end = Some x ->
             exists t, k t = Some x /\ (length t + 1 <= length s)%nat).
  { intros q [|c t] k x H; [discriminate|].
    destruct (accepts q c); [|discriminate].
    exists t. split; [assumption|simpl; lia]. }
  induction r as [c|rs|rs| |a IHa b IHb|a IHa b IHb|a IHa];
    intros s k x H;
    [exact (one (Lit c) s k x H) | exact (one (Set_ rs) s k x H)
    | exact (one (NotSet rs) s k x H) | exact (one Dot s k x H)
    | simpl in H |- * ..].
  - apply IHa in H. destruct H as (t & H & Ht).
    apply IHb in H. destruct H as (u & H & Hu).
    exists u. split; [assumption|lia].
  - destruct (exec a s k) eqn:E.
    + inversion H; subst. apply IHa in E. destruct E as (t & E & Ht).
      exists t. split; [assumption|lia].
    + apply IHb in H. destruct H as (t & H & Ht).
      exists t. split; [assumption|lia].
  - clear IHa. revert x H. induction s as [|c t IH]; intros x H; simpl in H.
    + exists []. split; [assumption|simpl; lia].
    + destruct (accepts a c).
      * destruct (star (accepts a) k t) eqn:E.
        -- inversion H; subst. destruct (IH _ eq_refl) as (u & Hu & Hl).
           exists u. split; [assumption|simpl; lia].
        -- exists (c :: t). split; [assumption|simpl; lia].
      * exists (c :: t). split; [assumption|simpl; lia].
Qed.

Lemma re_vt100_shorter (s rest : str) :
  re_match re_vt100 s = Some rest -> (length rest < length s)%nat.
Proof.
  intros H. apply exec_min_len in H. destruct H as (t & H & Ht).
  inversion H; subst. simpl in Ht. lia.
Qed.

(** [self.re_vt100.sub("", s, count=count)], with [n] replacements already
    made: the leftmost match from the current position is replaced by the
    empty string and the search goes on after it; a [count] of zero means
    no limit. *)
Equations? vt100_sub (count n : N) (s : str) : str by wf (length s) lt :=
  vt100_sub count n [] := [];
  vt100_sub count n (c :: t) with (count =? 0) || (n <? count) => {
    | false := c :: t
    | true with inspect (re_match re_vt100 (c :: t)) => {
        | exist _ (Some rest) _ := vt100_sub count (n + 1) rest
        | exist _ None _ := c :: vt100_sub count n t } }.
Proof.
  exact (re_vt100_shorter (c :: t) e).
Qed.

(** The filter as [_run] applies it:
    [self.re_vt100.sub("", text, count=1000000)]. *)
Definition escape_filter (s : str) : str := vt100_sub 1000000 0 s.


(** ** Python built-ins used by the driver *)

(** [s.replace(old, "")] for a one-character [old]. *)
Definition str_replace (old : char) (s : str) : str :=
  List.filter (fun c => negb (c =? old)) s.

(** [s.split(sep)] for a one-character [sep]: never empty, one more piece
    than separators. *)
Fixpoint str_split (sep : char) (s : str) : list str :=
  match s with
  | [] => [[]]
  | c :: t =>
      if c =? sep then [] :: str_split sep t
      else match str_split sep t with
           | l :: ls => (c :: l) :: ls
           | [] => [[c]]
           end
  end.

(** [sep.join(l)]. *)
Fixpoint str_join (sep : str) (l : list str) : str :=
  match l with
  | [] => []
  | [x] => x
  | x :: r => x ++ sep ++ str_join sep r
  end.

(** [l[1:-1]]: slicing never fails; a list of fewer than three elements
    gives the empty list. *)
Definition slice_1_m1 {A : Type} (l : list A) : list A := removelast (tl l).

(** [l[-k]] for [k >= 1]; [None] is Python's [IndexError]. *)
Definition getitem_neg {A : Type} (l : list A) (k : nat) : option A :=
  nth_error (rev l) (Nat.pred k).

(** [bytes.decode("utf-8")] with the default ["strict"] error policy:
    well-formed UTF-8 only (no overlong form, no surrogate, nothing above
    U+10FFFF, no truncated sequence); [None] is [UnicodeDecodeError]. *)
Definition between (lo hi x : N) : bool := (lo <=? x) && (x <=? hi).

Definition cont (x : N) : bool := between 0x80 0xBF x.

Fixpoint decode_utf8 (bs : bytes) : option str :=
  match bs with
  | [] => Some []
  | b0 :: r0 =>
      let x0 := Byte.to_N b0 in
      if x0 <? 0x80 then option_map (cons x0) (decode_utf8 r0)
      else
        match r0 with
        | [] => None
        | b1 :: r1 =>
            let x1 := Byte.to_N b1 in
            if between 0xC2 0xDF x0 then
              if cont x1
              then option_map (cons ((x0 - 0xC0) * 64 + (x1 - 0x80)))
                              (decode_utf8 r1)
              else None
            else
              match r1 with
              | [] => None
              | b2 :: r2 =>
                  let x2 := Byte.to_N b2 in
                  if between 0xE0 0xEF x0 then
                    if (if x0 =? 0xE0 then between 0xA0 0xBF x1
                        else if x0 =? 0xED then between 0x80 0x9F x1
                        else cont x1) && cont x2
                    then option_map
                           (cons ((x0 - 0xE0) * 4096 + (x1 - 0x80) * 64
                                  + (x2 - 0x80)))
                           (decode_utf8 r2)
                    else None
                  else
                    match r2 with
                    | [] => None
                    | b3 :: r3 =>
                        let x3 := Byte.to_N b3 in
                        if between 0xF0 0xF4 x0 then
                          if (if x0 =? 0xF0 then between 0x90 0xBF x1
                              else if x0 =? 0xF4 then between 0x80 0x8F x1
                              else cont x1) && cont x2 && cont x3
                          then option_map
                                 (cons ((x0 - 0xF0) * 262144
                                        + (x1 - 0x80) * 4096
                                        + (x2 - 0x80) * 64 + (x3 - 0x80)))
                                 (decode_utf8 r3)
                          else None
                        else None
                    end
              end
        end
  end.

(** What [int(str)] depends on and the source does not fix: the Unicode
    database of the interpreter (which characters outside printable ASCII
    are white space, which are decimal digits) and the limit on the number
    of digits of later interpreter versions (zero: no limit). *)
Record py_runtime : Type := {
  uni_isspace : char -> bool;
  uni_decimal : char -> option Z;
  int_max_str_digits : N
}.

Inductive tok : Type :=
| TSpace | TPlus | TMinus | TUnderscore | TDigit (d : Z) | TBad.

Section Int.
Variable rt : py_runtime.

(** Printable ASCII and the ASCII white space are classified here, the
    rest by the runtime. *)
Definition classify (c : char) : tok :=
  if between 9 13 c || (c =? 32) then TSpace
  else if between 48 57 c then TDigit (Z.of_N (c - 48))
  else if c =? ch "+" then TPlus
  else if c =? ch "-" then TMinus
  else if c =? ch "_" then TUnderscore
  else if between 33 126 c then TBad
  else if uni_isspace rt c then TSpace
  else match uni_decimal rt c with
       | Some d => TDigit d
       | None => TBad
       end.

Fixpoint all_space (ts : list tok) : bool :=
  match ts with
  | [] => true
  | TSpace :: r => all_space r
  | _ => false
  end.

Fixpoint skip_space (ts : list tok) : list tok :=
  match ts with
  | TSpace :: r => skip_space r
  | _ => ts
  end.

Definition too_many_digits (n : N) : bool :=
  (640 <? n) && (0 <? int_max_str_digits rt) && (int_max_str_digits rt <? n).

(** After [n] digits of value [acc]: more digits, each optionally
    preceded by one underscore, then white space to the end. *)
Fixpoint digits (acc : Z) (n : N) (ts : list tok) : option Z :=
  match ts with
  | [] => if too_many_digits n then None else Some acc
  | TDigit d :: r => digits (acc * 10 + d) (n + 1) r
  | TUnderscore :: TDigit d :: r => digits (acc * 10 + d) (n + 1) r
  | TSpace :: r =>
      if all_space r && negb (too_many_digits n) then Some acc else None
  | _ => None
  end.

Definition number (ts : list tok) : option Z :=
  match ts with
  | TDigit d :: r => digits d 1 r
  | _ => None
  end.

(** [int(s)] in base ten; [None] is [ValueError]. *)
Definition py_int (s : str) : option Z :=
  match skip_space (List.map classify s) with
  | TPlus :: r => number r
  | TMinus :: r => option_map Z.opp (number r)
  | ts => number ts
  end.
End Int.

(** ** The console and the driver monad *)

Inductive exn : Type :=
| TimeoutError          (* raised by [console.expect] *)
| UnicodeDecodeError    (* raised by [bytes.decode] *)
| IndexError            (* raised by [ret_data[-2]] *)
| ValueError            (* raised by [int] *)
| TypeError             (* raised by unpacking [None] *)
| StateError.           (* raised by labgrid's [Driver.check_active] *)

Inductive outcome (A : Type) : Type :=
| Ok (a : A)
| Raise (e : exn).
Arguments Ok {A} a.
Arguments Raise {A} e.

(** What the console answers to one [expect]: a match, with the bytes
    that came before it, or a timeout. *)
Inductive response : Type :=
| Matched (before : bytes)
| TimedOut.

(** One call on the console. The timeout is [None] where the caller gives
    none. *)
Inductive event : Type :=
| Sendline (line : str)
| Expect (pattern : str) (timeout : option Z) (r : response).

(** The attributes of the driver that are fixed at construction. *)
Record config : Type := {
  login_timeout : Z;
  boot_expression : str;
  prompt : str;
  init_commands : list str
}.

(** The mutable state: the [_status] attribute, the answers the console
    will give, the calls made on it so far (oldest first) and the records
    written by [logger.error]. *)
Record state : Type := {
  _status : Z;
  pending : list response;
  trace : list event;
  errors : list (Z * str)
}.

Definition M (A : Type) : Type := state -> outcome A * state.

Definition ret {A : Type} (a : A) : M A := fun st => (Ok a, st).

Definition raise {A : Type} (e : exn) : M A := fun st => (Raise e, st).

Definition bind {A B : Type} (m : M A) (f : A -> M B) : M B :=
  fun st =>
    match m st with
    | (Ok a, st') => f a st'
    | (Raise e, st') => (Raise e, st')
    end.

(** [try: body except: handler]: a bare [except] catches every exception;
    what [body] did to the state before raising stays done. *)
Definition try_except {A : Type} (body handler : M A) : M A :=
  fun st =>
    match body st with
    | (Ok a, st') => (Ok a, st')
    | (Raise _, st') => handler st'
    end.

Declare Scope driver_scope.
Delimit Scope driver_scope with driver.
Notation "x <- m ;; k" := (bind m (fun x => k))
  (at level 61, m at next level, right associativity) : driver_scope.
Notation "m ;; k" := (bind m (fun _ => k))
  (at level 61, right associativity) : driver_scope.
Local Open Scope driver_scope.

(** Raise [e] where a built-in fails. *)
Definition lift {A : Type} (e : exn) (o : option A) : M A :=
  match o with
  | Some a => ret a
  | None => raise e
  end.

Definition record (ev : event) (st : state) : state :=
  {| _status := _status st; pending := pending st;
     trace := trace st ++ [ev]; errors := errors st |}.

Definition answered (st : state) : state :=
  {| _status := _status st; pending := tl (pending st);
     trace := trace st; errors := errors st |}.

(** [self.console.sendline(line)]; the channel is taken to be open, so the
    call itself does not fail. *)
Definition sendline (line : str) : M unit :=
  fun st => (Ok tt, record (Sendline line) st).

(** [_, before, _, _ = self.console.expect(pattern, timeout=timeout)]:
    a console with nothing more to say times out. *)
Definition expect (pattern : str) (timeout : option Z) : M bytes :=
  fun st =>
    match pending st with
    | Matched before :: _ =>
        (Ok before, answered (record (Expect pattern timeout (Matched before)) st))
    | _ =>
        (Raise TimeoutError, answered (record (Expect pattern timeout TimedOut) st))
    end.

(** [self._status] and [self._status = v] *)
Definition get__status : M Z := fun st => (Ok (_status st), st).

Definition set__status (v : Z) : M unit :=
  fun st => (Ok tt, {| _status := v; pending := pending st;
                       trace := trace st; errors := errors st |}).

(** [self.logger.error("Unexpected error (%d): %s", err, text)] *)
Definition logger_error (err : Z) (text : str) : M unit :=
  fun st => (Ok tt, {| _status := _status st; pending := pending st;
                       trace := trace st;
                       errors := errors st ++ [(err, text)] |}).

(** [for x in l: body(x)] *)
Fixpoint for_each {A : Type} (l : list A) (body : A -> M unit) : M unit :=
  match l with
  | [] => ret tt
  | x :: r => body x ;; for_each r body
  end.

(** ** The driver *)

(** A Command Result: [(data, [], status)]. *)
Definition command_result : Type := list str * list str * Z.

(** [re.compile(r"nsh: .*: ")] *)
Definition r_not_found : regex :=
  lits (lit "nsh: ") (Seq (Star Dot) (Seq (Lit (ch ":")) (Lit (ch " ")))).

(** The truth value of [pattern.match(s)]. *)
Definition matches (r : regex) (s : str) : bool :=
  match re_match r s with
  | Some _ => true
  | None => false
  end.

(** The condition of the last [if] of [_run]:
    [len(data) and r_not_found.match(data[-1])]. *)
Definition marker_found (data : list str) : bool :=
  (0 <? length data)%nat
  && match getitem_neg data 1 with
     | Some l => matches r_not_found l
     | None => false
     end.

(** [re_vt100.sub("", text, count=1000000).replace("\r", "").split("\n")] *)
Definition lines_of (text : str) : list str :=
  str_split LF (str_replace CR (vt100_sub 1000000 0 text)).

(** The lines of a capture; the text is [before.decode("utf-8")]. *)
Definition capture_lines (before : bytes) : M (list str) :=
  text <- lift UnicodeDecodeError (decode_utf8 before) ;;
  ret (lines_of text).

(** [Driver.check_active], the decorator of [run]. It is labgrid's, not
    the repository's: it raises [StateError] unless the binding state that
    labgrid keeps for the driver is active, and calls the method otherwise.
    The driver code never reads or writes that state; it is the argument
    [active]. *)
Definition check_active {A : Type} (active : bool) (method : M A) : M A :=
  if active then method else raise StateError.

Section Driver.
Variable rt : py_runtime.
Variable cfg : config.

(** [NSHDriver._run]. [None] is Python's [None]. The [step] decorators of
    the methods only report the calls and are not part of the model. *)
Definition _run (cmd : str) (timeout : option Z) (codec decodeerrors : str)
  : M (option command_result) :=
  status <- get__status ;;
  if negb (status =? 1)%Z then ret None
  else
    let cmp_command := cmd in
    sendline cmp_command ;;
    before <- expect (prompt cfg) timeout ;;
    data <- capture_lines before ;;
    let data := slice_1_m1 data in
    try_except
      (let cmp_command := lit "echo $?" in
       sendline cmp_command ;;
       before <- expect (prompt cfg) timeout ;;
       ret_data <- capture_lines before ;;
       line <- lift IndexError (getitem_neg ret_data 2) ;;
       status <- lift ValueError (py_int rt line) ;;
       ret (Some (data, [], status)))
      (let rsp :=
         if marker_found data then Some (data, @nil str, 255%Z) else None in
       ret (Some (data, [], (-1)%Z))).

(** [NSHDriver._await_prompt]; the init commands run with the defaults
    of [_run]. *)
Definition _await_prompt : M unit :=
  expect (boot_expression cfg) (Some (login_timeout cfg)) ;;
  set__status 1 ;;
  expect (prompt cfg) None ;;
  for_each (init_commands cfg) (fun command =>
    r <- _run command (Some 30%Z) (lit "utf-8") (lit "strict") ;;
    match r with
    | Some (out, _, err) =>
        if negb (err =? 0)%Z then logger_error err (str_join [LF] out)
        else ret tt
    | None => raise TypeError
    end).

(** [NSHDriver.on_activate] *)
Definition on_activate : M unit :=
  status <- get__status ;;
  if (status =? 0)%Z then _await_prompt else ret tt.

(** [NSHDriver.on_deactivate] *)
Definition on_deactivate : M unit := set__status 0.

(** [NSHDriver.run], with [active] the binding state at the call. *)
Definition run (active : bool) (cmd : str) (timeout : option Z)
    (codec decodeerrors : str) : M (option command_result) :=
  check_active active (_run cmd timeout codec decodeerrors).

(** [NSHDriver.get_status] *)
Definition get_status : M Z := get__status.
End Driver.

(** ** Life cycle *)

(** The calls a client can make on the driver; a call of [run] comes with
    the binding state that labgrid holds at that moment. *)
Inductive call : Type :=
| Activate
| Deactivate
| Run (active : bool) (cmd : str) (timeout : option Z)
      (codec decodeerrors : str)
| GetStatus.

(** The state a call leaves behind, whether it returns or raises. *)
Definition perform (rt : py_runtime) (cfg : config) (c : call) (st : state)
  : state :=
  match c with
  | Activate => snd (on_activate rt cfg st)
  | Deactivate => snd (on_deactivate st)
  | Run active cmd timeout codec decodeerrors =>
      snd (run rt cfg active cmd timeout codec decodeerrors st)
  | GetStatus => snd (get_status st)
  end.

(** A new driver ([__attrs_post_init__] sets [_status] to zero) on a
    console that will answer with [script]. *)
Definition initial (script : list response) : state :=
  {| _status := 0; pending := script; trace := []; errors := [] |}.

Inductive reachable (rt : py_runtime) (cfg : config) : state -> Prop :=
| reach_initial script : reachable rt cfg (initial script)
| reach_call st c :
    reachable rt cfg st -> reachable rt cfg (perform rt cfg c st).

(** The boot expression has matched at some point of the trace. *)
Definition boot_seen (cfg : config) (tr : list event) : Prop :=
  exists before,
    In (Expect (boot_expression cfg) (Some (login_timeout cfg)) (Matched before)) tr.

(** ** Escape sequences in a text *)

(** Some position of [s] starts a match of [re_vt100]. *)
Fixpoint has_sequence (s : str) : bool :=
  match s with
  | [] => false
  | c :: t => matches re_vt100 (c :: t) || has_sequence t
  end.

(** Neither ["\x1b"] nor ["\x9b"] occurs in [s]. *)
Definition marker_free (s : str) : Prop :=
  Forall (fun c => c <> ESC /\ c <> CSI) s.

(** ** Concrete consoles *)

Definition crlf : bytes := [Byte.x0d; Byte.x0a].

Fixpoint starts_with (p s : bytes) : bool :=
  match p, s with
  | [], _ => true
  | a :: p', b :: s' => Byte.eqb a b && starts_with p' s'
  | _ :: _, [] => false
  end.

Fixpoint before_literal (p s : bytes) : option bytes :=
  match s with
  | [] => if starts_with p [] then Some [] else None
  | b :: t =>
      if starts_with p s then Some []
      else option_map (cons b) (before_literal p t)
  end.

(** The answer of a console whose buffer holds [stream] to an [expect] of
    a pattern that is the literal text [p]: the bytes before its first
    occurrence, or a timeout when it does not occur. *)
Definition answer_literal (p stream : bytes) : response :=
  match before_literal p stream with
  | Some before => Matched before
  | None => TimedOut
  end.

(** A runtime whose [int] knows printable ASCII only, for the examples
    that need a closed term. *)
Definition ascii_runtime : py_runtime :=
  {| uni_isspace := fun _ => false;
     uni_decimal := fun _ => None;
     int_max_str_digits := 0 |}.

(** The default configuration of the driver. *)
Definition default_config : config :=
  {| login_timeout := 60;
     boot_expression := lit "NuttShell \(NSH\) NuttX";
     prompt := lit "nsh> ";
     init_commands := [] |}.

(** What a target prints before its banner: the bytes before the match
    of the boot expression. *)
Definition before_banner : bytes := crlf.

(** A ready driver on a console that will answer with [script]. *)
Definition ready (script : list response) : state :=
  {| _status := 1; pending := script; trace := []; errors := [] |}.

(** ["\x1b[31mHello\x1b[0m"] *)
Definition colour_hello : str := [ESC] ++ lit "[31mHello" ++ [ESC] ++ lit "[0m".

(** ["\x1b\x1bAA"] *)
Definition nested_escape : str := [ESC; ESC] ++ lit "AA".

(** ** Auxiliary definitions for the statements *)

(** Every state a computation ends in is related to the one it starts
    from. *)
Definition keeps {A : Type} (R : state -> state -> Prop) (m : M A) : Prop :=
  forall st, R st (snd (m st)).

(** The status is untouched and the trace only grows. *)
Definition grows (st st' : state) : Prop :=
  _status st' = _status st /\ exists evs, trace st' = trace st ++ evs.

(** The exit status that the [echo $?] round trip of [_run] gives on a
    console that will answer with [script]; [None] when anything in the
    [try] block raises. *)
Definition inferred (rt : py_runtime) (script : list response) : option Z :=
  match script with
  | Matched before :: _ =>
      match decode_utf8 before with
      | Some text =>
          match getitem_neg (lines_of text) 2 with
          | Some line => py_int rt line
          | None => None
          end
      | None => None
      end
  | _ => None
  end.

(** The state after the first round trip of [_run] has matched. *)
Definition after_first (cfg : config) (cmd : str) (timeout : option Z)
    (b1 : bytes) (st : state) : state :=
  answered (record (Expect (prompt cfg) timeout (Matched b1))
                   (record (Sendline cmd) st)).

(** The state after the [echo $?] round trip. *)
Definition after_second (cfg : config) (cmd : str) (timeout : option Z)
    (b1 : bytes) (st : state) : state :=
  let st2 := record (Sendline (lit "echo $?")) (after_first cfg cmd timeout b1 st) in
  answered
    (record (Expect (prompt cfg) timeout
               match pending st2 with
               | Matched b2 :: _ => Matched b2
               | _ => TimedOut
               end) st2).

(** [_await_prompt] after the boot expression has matched and the status
    is set: the prompt wait and the init commands. *)
Definition sync_rest (rt : py_runtime) (cfg : config) : M unit :=
  expect (prompt cfg) None ;;
  for_each (init_commands cfg) (fun command =>
    r <- _run rt cfg command (Some 30%Z) (lit "utf-8") (lit "strict") ;;
    match r with
    | Some (out, _, err) =>
        if negb (err =? 0)%Z then logger_error err (str_join [LF] out)
        else ret tt
    | None => raise TypeError
    end).

(** The state in which the prompt wait starts. *)
Definition boot_done (cfg : config) (before : bytes) (st : state) : state :=
  snd (set__status 1
         (answered (record (Expect (boot_expression cfg)
                                   (Some (login_timeout cfg))
                                   (Matched before)) st))).

(** Neither the byte 0x1b nor the byte 0x9b occurs in [bs]. *)
Definition byte_marker_free (bs : bytes) : Prop :=
  Forall (fun b => b <> Byte.x1b /\ b <> Byte.x9b) bs.

(** The default values of the [codec] and [decodeerrors] arguments. *)
Definition utf8 : str := lit "utf-8".
Definition strict : str := lit "strict".

(** The console of a shell that prints an error for [foo] and does not
    expand [$?]. *)
Definition no_status_script : list response :=
  [answer_literal (blit "nsh> ")
     (blit "foo" ++ crlf ++ blit "nsh: foo: command not found" ++ crlf
      ++ blit "nsh> ");
   answer_literal (blit "nsh> ")
     (blit "echo $?" ++ crlf ++ blit "$?" ++ crlf ++ blit "nsh> ")].

(** The console that echoes the command and prints [OK], then echoes
    [echo $?] and prints [0]. *)
Definition echo_ok_script : list response :=
  [answer_literal (blit "nsh> ")
     (blit "echo OK" ++ crlf ++ blit "OK" ++ crlf ++ blit "nsh> ");
   answer_literal (blit "nsh> ")
     (blit "echo $?" ++ crlf ++ blit "0" ++ crlf ++ blit "nsh> ")].

(** ** Further definitions for the statements *)

(** [l1] is [l2] with some elements left out: same order, nothing new. *)
Inductive subseq {A : Type} : list A -> list A -> Prop :=
| subseq_nil : subseq [] []
| subseq_skip x l1 l2 : subseq l1 l2 -> subseq l1 (x :: l2)
| subseq_keep x l1 l2 : subseq l1 l2 -> subseq (x :: l1) (x :: l2).

(** A final byte of an escape sequence: a member of [[@-_a-z]]. *)
Definition is_final (c : char) : bool := in_ranges final_set c.

(** [re_vt100.sub("", s, count=0)]: substitution without a limit. *)
Definition vt100_sub_all (s : str) : str := vt100_sub 0 0 s.

(** Every ["\x1b"] of [s] is directly followed by a character of
    [[@-_a-z]], so that it opens a two-character escape or a control
    sequence. *)
Fixpoint esc_closed (s : str) : bool :=
  match s with
  | [] => true
  | c :: t =>
      (if c =? ESC
       then match t with
            | d :: _ => is_final d
            | [] => false
            end
       else true)
      && esc_closed t
  end.

(** [j] copies of the two-character escape ["\x1bA"]. *)
Fixpoint escapes (j : nat) : str :=
  match j with
  | O => []
  | S j' => ESC :: ch "A" :: escapes j'
  end.

(** A piece of text without line ends and without escape markers. *)
Definition plain (l : str) : Prop :=
  Forall (fun c => c <> CR /\ c <> LF /\ c <> ESC /\ c <> CSI) l.

(** What a shell that echoes its input and ends every line with
    ["\r\n"] prints before the next prompt: the echoed command, then the
    lines of output. *)
Definition capture_of (echo : str) (lines : list str) : str :=
  echo ++ [CR; LF] ++ concat (List.map (fun l => l ++ [CR; LF]) lines).

(** The ASCII decimal digits and the number they spell. *)
Definition is_digit (c : char) : bool := between 48 57 c.

Definition decimal_value (cs : str) : Z :=
  fold_left (fun acc c => (acc * 10 + Z.of_N (c - 48))%Z) cs 0%Z.

(** Round trips on the console: every line sent is followed by a wait for
    the prompt. *)
Inductive rounds (cfg : config) : list event -> Prop :=
| rounds_nil : rounds cfg []
| rounds_cons line timeout r evs :
    rounds cfg evs ->
    rounds cfg (Sendline line :: Expect (prompt cfg) timeout r :: evs).

(** The lines sent in a trace, oldest first. *)
Definition sent (tr : list event) : list str :=
  flat_map (fun ev => match ev with
                      | Sendline line => [line]
                      | Expect _ _ _ => []
                      end) tr.

(** The answers of a console to the round trips of the init commands: for
    each command the capture of its own round trip and whatever answers the
    [echo $?] round trip. *)
Definition init_script (answers : list (bytes * response)) : list response :=
  flat_map (fun a => [Matched (fst a); snd a]) answers.

(** What [_await_prompt] logs for one init command with these answers: a
    record with the status and the output when the status is not zero. *)
Definition init_report (rt : py_runtime) (a : bytes * response)
  : list (Z * str) :=
  match decode_utf8 (fst a) with
  | Some text =>
      let err := match inferred rt [snd a] with
                 | Some n => n
                 | None => (-1)%Z
                 end in
      if negb (err =? 0)%Z
      then [(err, str_join [LF] (slice_1_m1 (lines_of text)))]
      else []
  | None => []
  end.

(** The body of the loop of [_await_prompt]. *)
Definition init_step (rt : py_runtime) (cfg : config) (command : str) : M unit :=
  r <- _run rt cfg command (Some 30%Z) (lit "utf-8") (lit "strict") ;;
  match r with
  | Some (out, _, err) =>
      if negb (err =? 0)%Z then logger_error err (str_join [LF] out)
      else ret tt
  | None => raise TypeError
  end.

(** Every line in the trace was sent after the boot expression had matched
    and is followed at once by a wait for the prompt. *)
Definition disciplined (cfg : config) (tr : list event) : Prop :=
  forall pre line post,
    tr = pre ++ Sendline line :: post ->
    boot_seen cfg pre
    /\ exists timeout r post', post = Expect (prompt cfg) timeout r :: post'.

(** A configuration with two init commands. *)
Definition init_config : config :=
  {| login_timeout := 60;
     boot_expression := lit "NuttShell \(NSH\) NuttX";
     prompt := lit "nsh> ";
     init_commands := [lit "mount"; lit "false"] |}.

(** Answers to the two init commands: [mount] prints one line and has
    status 0, [false] prints nothing and has status 1. *)
Definition init_answers : list (bytes * response) :=
  [(blit "mount" ++ crlf ++ blit "/proc type procfs" ++ crlf,
    Matched (blit "echo $?" ++ crlf ++ blit "0" ++ crlf));
   (blit "false" ++ crlf,
    Matched (blit "echo $?" ++ crlf ++ blit "1" ++ crlf))].

(** ** The simulator console *)

(** A call of [SimConsoleDriver._read] on its child process or on its poll
    object. *)
Inductive sim_call : Type :=
| ChildPoll                      (* self._child.poll() *)
| StdoutRead (size : Z)          (* self._child.stdout.read(size) *)
| PollPoll (timeout : Z).        (* self._poll.poll(timeout) *)

(** The child process as [_read] sees it: its return code ([None] while it
    runs), what the next non-blocking reads of its output will give
    ([None]: nothing to read), whether the next polls will report an
    event, and the calls made so far. *)
Record sim_state : Type := {
  returncode : option Z;
  stdout : list (option bytes);
  polls : list bool;
  calls : list sim_call
}.

(** What [_read] gives: bytes, or the exception [ExecutionError]. *)
Inductive sim_outcome : Type :=
| Read (data : bytes)
| ExecutionError.

Definition child_poll (s : sim_state) : option Z * sim_state :=
  (returncode s,
   {| returncode := returncode s; stdout := stdout s; polls := polls s;
      calls := calls s ++ [ChildPoll] |}).

Definition stdout_read (size : Z) (s : sim_state) : option bytes * sim_state :=
  (match stdout s with
   | d :: _ => d
   | [] => None
   end,
   {| returncode := returncode s; stdout := tl (stdout s); polls := polls s;
      calls := calls s ++ [StdoutRead size] |}).

Definition poll_poll (timeout : Z) (s : sim_state) : bool * sim_state :=
  (match polls s with
   | p :: _ => p
   | [] => false
   end,
   {| returncode := returncode s; stdout := stdout s; polls := tl (polls s);
      calls := calls s ++ [PollPoll timeout] |}).

(** [SimConsoleDriver._read(size, timeout)]. *)
Definition _read (size timeout : Z) (s : sim_state) : sim_outcome * sim_state :=
  let (code, s1) := child_poll s in
  match code with
  | Some _ => (ExecutionError, s1)
  | None =>
      let (first, s2) := stdout_read size s1 in
      match first with
      | Some data => (Read data, s2)
      | None =>
          let (ready, s3) := poll_poll timeout s2 in
          if ready then
            let (res, s4) := stdout_read size s3 in
            match res with
            | Some data => (Read data, s4)
            | None => (Read [], s4)
            end
          else (Read [], s3)
      end
  end.

(** ** The escape-sequence filter: lemmas *)

Lemma vt100_sub_cons (count n : N) (c : char) (t : str) :
  vt100_sub count n (c :: t) =
  if (count =? 0) || (n <? count) then
    match re_match re_vt100 (c :: t) with
    | Some rest => vt100_sub count (n + 1) rest
    | None => c :: vt100_sub count n t
    end
  else c :: t.
Proof.
  rewrite vt100_sub_equation_2. unfold vt100_sub_unfold_clause_2.
  destruct ((count =? 0) || (n <? count)); [|reflexivity].
  unfold inspect.
  generalize (@eq_refl _ (re_match re_vt100 (c :: t))).
  generalize (re_match re_vt100 (c :: t)) at 2 4 5.
  intros [rest|] e; reflexivity.
Qed.

Lemma re_vt100_needs_marker (c : char) (t : str) :
  c <> ESC -> c <> CSI -> re_match re_vt100 (c :: t) = None.
Proof.
  intros He Hc. unfold re_match. simpl.
  apply N.eqb_neq in He. apply N.eqb_neq in Hc.
  rewrite He, Hc. reflexivity.
Qed.

Lemma marker_free_no_sequence (s : str) :
  marker_free s -> has_sequence s = false.
Proof.
  induction 1 as [|c t [He Hc] _ IH]; [reflexivity|].
  simpl. unfold matches. rewrite re_vt100_needs_marker by assumption.
  exact IH.
Qed.

Lemma vt100_sub_no_sequence (count n : N) (s : str) :
  has_sequence s = false -> vt100_sub count n s = s.
Proof.
  induction s as [|c t IH]; intros H.
  - reflexivity.
  - simpl in H. apply orb_false_iff in H. destruct H as [Hm Ht].
    rewrite vt100_sub_cons. unfold matches in Hm.
    destruct (re_match re_vt100 (c :: t)); [discriminate|].
    rewrite (IH Ht). destruct ((count =? 0) || (n <? count)); reflexivity.
Qed.

Lemma vt100_sub_length (count : N) (s : str) :
  forall n, (length (vt100_sub count n s) <= length s)%nat.
Proof.
  assert (G : forall m (u : str), (length u <= m)%nat ->
              forall n, (length (vt100_sub count n u) <= length u)%nat).
  { induction m as [|m IH]; intros [|c t] Hle n;
      simpl in Hle; try lia; try (rewrite vt100_sub_equation_1; simpl; lia).
    rewrite vt100_sub_cons.
    destruct ((count =? 0) || (n <? count)); [|apply Nat.le_refl].
    destruct (re_match re_vt100 (c :: t)) as [rest|] eqn:E.
    - apply re_vt100_shorter in E. simpl in E.
      specialize (IH rest ltac:(lia) (n + 1)). simpl. lia.
    - specialize (IH t ltac:(lia) n). simpl. lia. }
  exact (G (length s) s (Nat.le_refl _)).
Qed.

Lemma vt100_sub_shrinks (count : N) (s : str) :
  forall n, (count =? 0) || (n <? count) = true ->
  has_sequence s = true ->
  (length (vt100_sub count n s) < length s)%nat.
Proof.
  induction s as [|c t IH]; intros n Hn H; [discriminate|].
  rewrite vt100_sub_cons, Hn. simpl in H. unfold matches in H.
  destruct (re_match re_vt100 (c :: t)) as [rest|] eqn:E.
  - apply re_vt100_shorter in E.
    pose proof (vt100_sub_length count rest (n + 1)). simpl in *. lia.
  - simpl in H. specialize (IH n Hn H). simpl. lia.
Qed.

Lemma escape_filter_fixed (s : str) :
  escape_filter s = s <-> has_sequence s = false.
Proof.
  split.
  - intros H. destruct (has_sequence s) eqn:E; [|reflexivity].
    pose proof (vt100_sub_shrinks 1000000 s 0 eq_refl E) as L.
    unfold escape_filter in H. rewrite H in L. lia.
  - apply vt100_sub_no_sequence.
Qed.


Lemma to_N_inj (a b : byte) : Byte.to_N a = Byte.to_N b -> a = b.
Proof.
  intros H. pose proof (Byte.of_to_N a) as Ha. rewrite H, Byte.of_to_N in Ha.
  congruence.
Qed.

Ltac bools :=
  repeat match goal with
    | H : _ && _ = true |- _ => apply andb_true_iff in H; destruct H
    | H : (_ <=? _) = true |- _ => apply N.leb_le in H
    | H : (_ <? _) = true |- _ => apply N.ltb_lt in H
    | H : (_ <? _) = false |- _ => apply N.ltb_ge in H
    | H : (_ =? _) = true |- _ => apply N.eqb_eq in H
    | H : (_ =? _) = false |- _ => apply N.eqb_neq in H
    end.

Lemma decode_utf8_marker_free :
  forall m bs s, (length bs <= m)%nat ->
  decode_utf8 bs = Some s -> byte_marker_free bs -> marker_free s.
Proof.
  assert (E : forall b, b <> Byte.x1b -> Byte.to_N b <> 27).
  { intros b Hb Heq. apply Hb, to_N_inj. exact Heq. }
  assert (C : forall b, b <> Byte.x9b -> Byte.to_N b <> 155).
  { intros b Hb Heq. apply Hb, to_N_inj. exact Heq. }
  induction m as [|m IH]; intros bs s Hl Hd Hf.
  - destruct bs; [|simpl in Hl; lia]. inversion Hd. constructor.
  - destruct bs as [|b0 r0]; [inversion Hd; constructor|].
    simpl in Hl. inversion Hf as [|? ? [He0 Hc0] Hf0]; subst.
    apply E in He0.
    cbn [decode_utf8] in Hd. cbv zeta in Hd.
    destruct (Byte.to_N b0 <? 128) eqn:L0.
    { destruct (decode_utf8 r0) as [s0|] eqn:D0; [|discriminate].
      inversion Hd; subst. bools. constructor.
      - unfold ESC, CSI. split; lia.
      - apply (IH r0); [lia|assumption|assumption]. }
    destruct r0 as [|b1 r1]; [discriminate|].
    inversion Hf0 as [|? ? [He1 Hc1] Hf1]; subst. apply C in Hc1.
    destruct (between 194 223 (Byte.to_N b0)) eqn:B2.
    { destruct (cont (Byte.to_N b1)) eqn:C1; [|discriminate].
      destruct (decode_utf8 r1) as [s1|] eqn:D1; [|discriminate].
      inversion Hd; subst. unfold between, cont in *. bools. constructor.
      - unfold ESC, CSI. split; lia.
      - apply (IH r1); [simpl in Hl; lia|assumption|assumption]. }
    destruct r1 as [|b2 r2]; [discriminate|].
    inversion Hf1 as [|? ? _ Hf2]; subst.
    destruct (between 224 239 (Byte.to_N b0)) eqn:B3.
    { match type of Hd with (if ?c then _ else _) = _ => destruct c eqn:C3 end;
        [|discriminate].
      destruct (decode_utf8 r2) as [s2|] eqn:D2; [|discriminate].
      inversion Hd; subst. constructor.
      - unfold between, cont in *. bools.
        destruct (Byte.to_N b0 =? 224) eqn:E0; bools.
        + unfold ESC, CSI. split; lia.
        + unfold ESC, CSI. split; lia.
      - apply (IH r2); [simpl in Hl; lia|assumption|assumption]. }
    destruct r2 as [|b3 r3]; [discriminate|].
    inversion Hf2 as [|? ? _ Hf3]; subst.
    destruct (between 240 244 (Byte.to_N b0)) eqn:B4; [|discriminate].
    match type of Hd with (if ?c then _ else _) = _ => destruct c eqn:C4 end;
      [|discriminate].
    destruct (decode_utf8 r3) as [s3|] eqn:D3; [|discriminate].
    inversion Hd; subst. constructor.
    + unfold between, cont in *. bools.
      destruct (Byte.to_N b0 =? 240) eqn:E0; bools.
      * unfold ESC, CSI. split; lia.
      * unfold ESC, CSI. split; lia.
    + apply (IH r3); [simpl in Hl; lia|assumption|assumption].
Qed.

(** ** The command executor: lemmas *)

Ltac unfold_driver :=
  unfold run, check_active, _run, on_activate, on_deactivate, get_status,
    _await_prompt, capture_lines, bind, try_except, lift, ret, raise,
    get__status, set__status, sendline, expect, logger_error.

Section DriverFacts.
Variable rt : py_runtime.
Variable cfg : config.

Lemma run_active cmd timeout codec decodeerrors :
  run rt cfg true cmd timeout codec decodeerrors
  = _run rt cfg cmd timeout codec decodeerrors.
Proof. reflexivity. Qed.

Lemma run_not_active cmd timeout codec decodeerrors st :
  run rt cfg false cmd timeout codec decodeerrors st = (Raise StateError, st).
Proof. reflexivity. Qed.

Lemma _run_not_ready cmd timeout codec decodeerrors st :
  _status st <> 1%Z ->
  _run rt cfg cmd timeout codec decodeerrors st = (Ok None, st).
Proof.
  intros H. unfold_driver. apply Z.eqb_neq in H. rewrite H. reflexivity.
Qed.

Lemma _run_first_timeout cmd timeout codec decodeerrors st :
  _status st = 1%Z ->
  (forall before rest, pending st <> Matched before :: rest) ->
  _run rt cfg cmd timeout codec decodeerrors st =
  (Raise TimeoutError,
   answered (record (Expect (prompt cfg) timeout TimedOut)
                    (record (Sendline cmd) st))).
Proof.
  intros H Hp. unfold_driver. rewrite H. simpl.
  destruct (pending st) as [|[b|] rest]; try reflexivity.
  exfalso. exact (Hp b rest eq_refl).
Qed.

Lemma _run_first_ok cmd timeout codec decodeerrors st b1 rest text :
  _status st = 1%Z ->
  pending st = Matched b1 :: rest ->
  decode_utf8 b1 = Some text ->
  _run rt cfg cmd timeout codec decodeerrors st =
  (Ok (Some (slice_1_m1 (lines_of text), [],
             match inferred rt rest with Some n => n | None => (-1)%Z end)),
   after_second cfg cmd timeout b1 st).
Proof.
  intros H Hp Hd. unfold after_second, after_first, inferred.
  unfold_driver. rewrite H. simpl. rewrite Hp, Hd. simpl. rewrite Hp. simpl.
  destruct rest as [|[b2|] rest2]; simpl; try reflexivity.
  destruct (decode_utf8 b2) as [text2|]; simpl; try reflexivity.
  destruct (getitem_neg (lines_of text2) 2) as [line|]; simpl; try reflexivity.
  destruct (py_int rt line); reflexivity.
Qed.
End DriverFacts.

Lemma _run_first_undecodable (rt : py_runtime) (cfg : config)
    (cmd : str) (timeout : option Z) (codec decodeerrors : str) (st : state)
    (before : bytes) (rest : list response) :
  _status st = 1%Z ->
  pending st = Matched before :: rest ->
  decode_utf8 before = None ->
  fst (_run rt cfg cmd timeout codec decodeerrors st) = Raise UnicodeDecodeError.
Proof.
  intros H Hp Hd. unfold_driver. rewrite H. simpl. rewrite Hp, Hd. reflexivity.
Qed.

(** ** What every operation keeps *)

Lemma grows_refl st : grows st st.
Proof. split; [reflexivity|]. exists []. symmetry. apply app_nil_r. Qed.

Lemma grows_trans st1 st2 st3 : grows st1 st2 -> grows st2 st3 -> grows st1 st3.
Proof.
  intros [H1 [e1 T1]] [H2 [e2 T2]]. split; [congruence|].
  exists (e1 ++ e2). rewrite T2, T1. symmetry. apply app_assoc.
Qed.

Lemma grows_record ev st : grows st (record ev st).
Proof. split; [reflexivity|]. exists [ev]. reflexivity. Qed.

Lemma grows_answered st : grows st (answered st).
Proof. split; [reflexivity|]. exists []. symmetry. apply app_nil_r. Qed.

Lemma keeps_ret {A : Type} (a : A) : keeps grows (ret a).
Proof. intros st. apply grows_refl. Qed.

Lemma keeps_raise {A : Type} (e : exn) : keeps grows (@raise A e).
Proof. intros st. apply grows_refl. Qed.

Lemma keeps_lift {A : Type} (e : exn) (o : option A) : keeps grows (lift e o).
Proof. destruct o; [apply keeps_ret|apply keeps_raise]. Qed.

Lemma keeps_bind {A B : Type} (m : M A) (f : A -> M B) :
  keeps grows m -> (forall a, keeps grows (f a)) -> keeps grows (bind m f).
Proof.
  intros Hm Hf st. unfold bind. specialize (Hm st).
  destruct (m st) as [[a|e] st']; simpl in *; [|exact Hm].
  eapply grows_trans; [exact Hm|apply Hf].
Qed.

Lemma keeps_try_except {A : Type} (body handler : M A) :
  keeps grows body -> keeps grows handler -> keeps grows (try_except body handler).
Proof.
  intros Hb Hh st. unfold try_except. specialize (Hb st).
  destruct (body st) as [[a|e] st']; simpl in *; [exact Hb|].
  eapply grows_trans; [exact Hb|apply Hh].
Qed.

Lemma keeps_sendline line : keeps grows (sendline line).
Proof. intros st. apply grows_record. Qed.

Lemma keeps_expect pattern timeout : keeps grows (expect pattern timeout).
Proof.
  intros st. unfold expect.
  destruct (pending st) as [|[b|] rest]; simpl;
    (eapply grows_trans; [apply grows_record|apply grows_answered]).
Qed.

Lemma keeps_logger_error err text : keeps grows (logger_error err text).
Proof. intros st. split; [reflexivity|]. exists []. symmetry. apply app_nil_r. Qed.

Lemma keeps_get__status : keeps grows get__status.
Proof. intros st. apply grows_refl. Qed.

Lemma keeps_capture_lines before : keeps grows (capture_lines before).
Proof.
  apply keeps_bind; [apply keeps_lift|]. intros a. apply keeps_ret.
Qed.

Lemma keeps_for_each {A : Type} (l : list A) (body : A -> M unit) :
  (forall x, keeps grows (body x)) -> keeps grows (for_each l body).
Proof.
  intros H. induction l as [|x r IH]; simpl; [apply keeps_ret|].
  apply keeps_bind; [apply H|]. intros _. exact IH.
Qed.

Create HintDb keeps.

#[local] Hint Resolve keeps_ret keeps_raise keeps_lift keeps_sendline
  keeps_expect keeps_logger_error keeps_get__status keeps_capture_lines
  : keeps.

Lemma keeps__run rt cfg cmd timeout codec decodeerrors :
  keeps grows (_run rt cfg cmd timeout codec decodeerrors).
Proof.
  unfold _run. apply keeps_bind; [auto with keeps|]. intros status.
  destruct (negb (status =? 1)%Z); [auto with keeps|].
  repeat (apply keeps_bind; [auto with keeps|]; intros ?).
  apply keeps_try_except; [|auto with keeps].
  repeat (apply keeps_bind; [auto with keeps|]; intros ?).
  auto with keeps.
Qed.

Lemma keeps_sync_rest rt cfg : keeps grows (sync_rest rt cfg).
Proof.
  unfold sync_rest.
  apply keeps_bind; [auto with keeps|]. intros _.
  apply keeps_for_each. intros command.
  apply keeps_bind; [apply keeps__run|]. intros [[[out aux] err]|];
    [|auto with keeps].
  destruct (negb (err =? 0)%Z); auto with keeps.
Qed.

Section Activation.
Variable rt : py_runtime.
Variable cfg : config.

Lemma on_activate_active st :
  _status st <> 0%Z -> on_activate rt cfg st = (Ok tt, st).
Proof.
  intros H. unfold on_activate, bind, get__status.
  apply Z.eqb_neq in H. rewrite H. reflexivity.
Qed.

Lemma on_activate_boot_timeout st :
  _status st = 0%Z ->
  (forall before rest, pending st <> Matched before :: rest) ->
  on_activate rt cfg st =
  (Raise TimeoutError,
   answered (record (Expect (boot_expression cfg) (Some (login_timeout cfg))
                            TimedOut) st)).
Proof.
  intros H Hp. unfold on_activate, bind, get__status. rewrite H. simpl.
  unfold _await_prompt, bind, expect.
  destruct (pending st) as [|[b|] rest]; try reflexivity.
  exfalso. exact (Hp b rest eq_refl).
Qed.

Lemma on_activate_boot_matched st before rest :
  _status st = 0%Z ->
  pending st = Matched before :: rest ->
  on_activate rt cfg st = sync_rest rt cfg (boot_done cfg before st).
Proof.
  intros H Hp. unfold on_activate, bind at 1, get__status. rewrite H. simpl.
  unfold _await_prompt, bind at 1, expect at 1. rewrite Hp. reflexivity.
Qed.

Lemma on_activate_boot_seen st before rest :
  _status st = 0%Z ->
  pending st = Matched before :: rest ->
  _status (snd (on_activate rt cfg st)) = 1%Z
  /\ exists evs,
       trace (snd (on_activate rt cfg st)) =
       trace st
       ++ Expect (boot_expression cfg) (Some (login_timeout cfg))
                 (Matched before) :: evs.
Proof.
  intros H Hp. rewrite (on_activate_boot_matched _ H Hp).
  destruct (keeps_sync_rest rt cfg (boot_done cfg before st)) as [Hs [evs Ht]].
  split; [exact Hs|]. exists evs. rewrite Ht. simpl.
  rewrite <- app_assoc. reflexivity.
Qed.
End Activation.

(** ** Properties of the specification

    Where a statement is about [run] in the ready state, the driver is an
    activated one: the guard of [run] passes ([active] is [true]). *)

(** C1: with the exit status unavailable and a last line that matches the
    shell-error marker, [run] computes the triple with status 255, drops it
    and returns status -1. *)
Theorem run_error_marker_returns_minus_one (rt : py_runtime) :
  let line := lit "nsh: foo: command not found" in
  marker_found [line] = true
  /\ py_int rt (lit "$?") = None
  /\ fst (run rt default_config true (lit "foo") (Some 30%Z) utf8 strict
            (ready no_status_script))
     = Ok (Some ([line], [], (-1)%Z)).
Proof.
  repeat split; vm_compute; reflexivity.
Qed.

(** C2 (counterexample): the boot expression matches, the prompt wait
    times out; [activate] raises and leaves the status at 1. *)
Lemma on_activate_prompt_timeout_ready :
  on_activate ascii_runtime default_config (initial [Matched before_banner]) =
  (Raise TimeoutError,
   {| _status := 1;
      pending := [];
      trace := [Expect (boot_expression default_config) (Some 60%Z)
                       (Matched before_banner);
                Expect (prompt default_config) None TimedOut];
      errors := [] |}).
Proof. vm_compute. reflexivity. Qed.

(** C2 (amended): in every reachable state the status is 0 or 1, and it
    is 1 only if the boot expression has matched; an [activate] whose
    boot-expression wait times out raises [TimeoutError] and leaves the
    status at 0. *)
Theorem ready_only_after_boot (rt : py_runtime) (cfg : config) :
  (forall st, reachable rt cfg st ->
     (_status st = 0%Z \/ _status st = 1%Z)
     /\ (_status st = 1%Z -> boot_seen cfg (trace st)))
  /\ (forall st, _status st = 0%Z ->
        (forall before rest, pending st <> Matched before :: rest) ->
        fst (on_activate rt cfg st) = Raise TimeoutError
        /\ _status (snd (on_activate rt cfg st)) = 0%Z).
Proof.
  split.
  - induction 1 as [script|st c _ [IHs IHb]].
    + simpl. split; [left; reflexivity|discriminate].
    + destruct c as [| |active cmd timeout codec de|]; simpl.
      * destruct (Z.eq_dec (_status st) 0) as [H0|H0].
        -- destruct (pending st) as [|[before|] rest] eqn:Hp.
           ++ rewrite on_activate_boot_timeout by (try assumption; congruence).
              simpl. split; [left; assumption|congruence].
           ++ destruct (on_activate_boot_seen rt cfg st H0 Hp) as [Hs [evs Ht]].
              split; [right; assumption|]. intros _. exists before.
              rewrite Ht. apply in_or_app. right. left. reflexivity.
           ++ rewrite on_activate_boot_timeout by (try assumption; congruence).
              simpl. split; [left; assumption|congruence].
        -- rewrite on_activate_active by assumption. simpl. split; assumption.
      * split; [left; reflexivity|discriminate].
      * destruct active; [|rewrite run_not_active; split; assumption].
        destruct (keeps__run rt cfg cmd timeout codec de st) as [Hs [evs Ht]].
        rewrite run_active, Hs, Ht. split; [assumption|].
        intros H1. destruct (IHb H1) as [before Hin]. exists before.
        apply in_or_app. left. assumption.
      * split; assumption.
  - intros st H0 Hp. rewrite on_activate_boot_timeout by assumption.
    simpl. split; [reflexivity|assumption].
Qed.

Lemma ready_only_after_boot_witness :
  boot_seen default_config
    (trace (perform ascii_runtime default_config Activate
              (initial [Matched before_banner; Matched []])))
  /\ fst (on_activate ascii_runtime default_config (initial [])) = Raise TimeoutError
  /\ _status (snd (on_activate ascii_runtime default_config (initial []))) = 0%Z.
Proof.
  split.
  - refine (proj2 (proj1 (ready_only_after_boot ascii_runtime default_config)
                     _ (reach_call Activate (reach_initial _ _ _))) _).
    vm_compute. reflexivity.
  - refine (proj2 (ready_only_after_boot ascii_runtime default_config)
              (initial []) _ _).
    + reflexivity.
    + simpl. discriminate.
Defined.

(** C3 (counterexample): the [expect] of the [echo $?] round trip times
    out; [run] returns a result and raises nothing. *)
Lemma run_echo_timeout_is_caught :
  run ascii_runtime default_config true (lit "echo OK") (Some 30%Z) utf8 strict
      (ready [Matched (blit "echo OK" ++ crlf ++ blit "OK" ++ crlf); TimedOut])
  = (Ok (Some ([lit "OK"], [], (-1)%Z)),
     {| _status := 1;
        pending := [];
        trace := [Sendline (lit "echo OK");
                  Expect (lit "nsh> ") (Some 30%Z)
                    (Matched (blit "echo OK" ++ crlf ++ blit "OK" ++ crlf));
                  Sendline (lit "echo $?");
                  Expect (lit "nsh> ") (Some 30%Z) TimedOut];
        errors := [] |}).
Proof. vm_compute. reflexivity. Qed.

(** C3 (amended): in the ready state a timeout of the [expect] of the
    command's own round trip is raised to the caller; a timeout of the
    [expect] of the [echo $?] round trip is caught by the bare [except]:
    [run] returns the lines with a status, which is -1 when the last line
    carries no shell-error marker. *)
Theorem run_timeouts (rt : py_runtime) (cfg : config)
    (cmd : str) (timeout : option Z) (codec decodeerrors : str) (st : state) :
  _status st = 1%Z ->
  ((forall before rest, pending st <> Matched before :: rest) ->
   fst (run rt cfg true cmd timeout codec decodeerrors st) = Raise TimeoutError)
  /\ (forall before rest text,
        pending st = Matched before :: rest ->
        decode_utf8 before = Some text ->
        (forall before2 rest2, rest <> Matched before2 :: rest2) ->
        exists status,
          fst (run rt cfg true cmd timeout codec decodeerrors st)
          = Ok (Some (slice_1_m1 (lines_of text), [], status))
          /\ (marker_found (slice_1_m1 (lines_of text)) = false ->
              status = (-1)%Z)).
Proof.
  intros H1. split.
  - intros Hp. rewrite run_active, _run_first_timeout by assumption.
    reflexivity.
  - intros before rest text Hp Hd Hr. rewrite run_active.
    rewrite (_run_first_ok rt cfg cmd timeout codec decodeerrors st H1 Hp Hd).
    simpl. destruct rest as [|[b2|] rest2].
    + eexists. split; reflexivity.
    + exfalso. exact (Hr b2 rest2 eq_refl).
    + eexists. split; reflexivity.
Qed.

Lemma run_timeouts_witness :
  fst (run ascii_runtime default_config true (lit "ls") (Some 30%Z) utf8 strict
         (ready [TimedOut]))
  = Raise TimeoutError
  /\ exists status,
       fst (run ascii_runtime default_config true (lit "ls") (Some 30%Z) utf8 strict
              (ready [Matched (blit "ls" ++ crlf ++ blit "dev" ++ crlf)]))
       = Ok (Some (slice_1_m1 (lines_of (lit "ls" ++ [CR; LF] ++ lit "dev" ++ [CR; LF])),
                   [], status))
       /\ (marker_found
             (slice_1_m1 (lines_of (lit "ls" ++ [CR; LF] ++ lit "dev" ++ [CR; LF])))
           = false -> status = (-1)%Z).
Proof.
  split.
  - refine (proj1 (run_timeouts ascii_runtime default_config (lit "ls")
                     (Some 30%Z) utf8 strict (ready [TimedOut]) eq_refl) _).
    simpl. discriminate.
  - refine (proj2 (run_timeouts ascii_runtime default_config (lit "ls")
                     (Some 30%Z) utf8 strict
                     (ready [Matched (blit "ls" ++ crlf ++ blit "dev" ++ crlf)])
                     eq_refl) _ [] _ eq_refl _ _).
    + vm_compute. reflexivity.
    + discriminate.
Defined.

(** C4 (counterexample): [run] on a driver that was never activated, so
    that its binding is not active and [_status] is 0: the guard
    [check_active] raises [StateError]; the console is not touched. *)
Lemma run_inactive_raises :
  _status (initial [Matched before_banner]) = 0%Z
  /\ run ascii_runtime default_config false (lit "echo OK") (Some 30%Z)
         utf8 strict (initial [Matched before_banner])
     = (Raise StateError, initial [Matched before_banner]).
Proof. split; reflexivity. Qed.

(** C4 (amended): with [_status] 0, [_run] returns [None] at once, with the
    state, and with it the trace of console calls, unchanged and nothing
    raised. [run] gets there only when its guard [check_active] passes;
    otherwise it raises [StateError]. In both cases it leaves the state,
    and with it the trace of console calls, unchanged. *)
Theorem run_inactive_no_io (rt : py_runtime) (cfg : config) (active : bool)
    (cmd : str) (timeout : option Z) (codec decodeerrors : str) (st : state) :
  _status st = 0%Z ->
  _run rt cfg cmd timeout codec decodeerrors st = (Ok None, st)
  /\ run rt cfg active cmd timeout codec decodeerrors st
     = (if active then Ok None else Raise StateError, st).
Proof.
  intros H.
  assert (R : _run rt cfg cmd timeout codec decodeerrors st = (Ok None, st)).
  { apply _run_not_ready. rewrite H. discriminate. }
  split; [exact R|]. destruct active.
  - rewrite run_active. exact R.
  - apply run_not_active.
Qed.

Lemma run_inactive_no_io_witness :
  _run ascii_runtime default_config (lit "echo OK") (Some 30%Z) utf8 strict
       (initial [Matched before_banner])
  = (Ok None, initial [Matched before_banner])
  /\ run ascii_runtime default_config true (lit "echo OK") (Some 30%Z)
         utf8 strict (initial [Matched before_banner])
     = (Ok None, initial [Matched before_banner]).
Proof.
  exact (run_inactive_no_io ascii_runtime default_config true (lit "echo OK")
           (Some 30%Z) utf8 strict (initial [Matched before_banner]) eq_refl).
Defined.

(** C5: [run("echo OK", timeout=30)] on the console [echo_ok_script] returns
    [(["OK"], [], 0)]: the first capture has the lines "echo OK", "OK" and
    the empty line, of which the first and the last are dropped; the status
    is the line before the last of the second capture, read by [int]. The
    last part says the same of every command and every pair of captures
    that decode: the lines are those of the first capture without the first
    and the last, and the status is the number that [int] reads on the line
    before the last of the second capture. *)
Theorem run_echo_ok (rt : py_runtime) :
  lines_of (lit "echo OK" ++ [CR; LF] ++ lit "OK" ++ [CR; LF])
  = [lit "echo OK"; lit "OK"; []]
  /\ getitem_neg (lines_of (lit "echo $?" ++ [CR; LF] ++ lit "0" ++ [CR; LF])) 2
     = Some (lit "0")
  /\ py_int rt (lit "0") = Some 0%Z
  /\ run rt default_config true (lit "echo OK") (Some 30%Z) utf8 strict
         (ready echo_ok_script)
     = (Ok (Some ([lit "OK"], [], 0%Z)),
        {| _status := 1;
           pending := [];
           trace := [Sendline (lit "echo OK");
                     Expect (lit "nsh> ") (Some 30%Z)
                       (Matched (blit "echo OK" ++ crlf ++ blit "OK" ++ crlf));
                     Sendline (lit "echo $?");
                     Expect (lit "nsh> ") (Some 30%Z)
                       (Matched (blit "echo $?" ++ crlf ++ blit "0" ++ crlf))];
           errors := [] |})
  /\ (forall (cfg : config) (cmd : str) (timeout : option Z)
             (codec decodeerrors : str) (st : state) (b1 b2 : bytes)
             (rest : list response) (text1 text2 line : str) (n : Z),
        _status st = 1%Z ->
        pending st = Matched b1 :: Matched b2 :: rest ->
        decode_utf8 b1 = Some text1 ->
        decode_utf8 b2 = Some text2 ->
        getitem_neg (lines_of text2) 2 = Some line ->
        py_int rt line = Some n ->
        fst (run rt cfg true cmd timeout codec decodeerrors st)
        = Ok (Some (slice_1_m1 (lines_of text1), [], n))).
Proof.
  split; [vm_compute; reflexivity|].
  split; [vm_compute; reflexivity|].
  split; [vm_compute; reflexivity|].
  split; [vm_compute; reflexivity|].
  intros cfg cmd timeout codec decodeerrors st b1 b2 rest text1 text2 line n
         H1 Hp Hd1 Hd2 Hl Hn.
  rewrite run_active.
  rewrite (_run_first_ok rt cfg cmd timeout codec decodeerrors st H1 Hp Hd1).
  unfold inferred. rewrite Hd2, Hl, Hn. reflexivity.
Qed.

Lemma run_echo_ok_witness :
  fst (run ascii_runtime default_config true (lit "ls /nodir") (Some 30%Z)
         utf8 strict
         (ready [Matched (blit "ls /nodir" ++ crlf ++ blit "failed" ++ crlf);
                 Matched (blit "echo $?" ++ crlf ++ blit "1" ++ crlf)]))
  = Ok (Some (slice_1_m1
                (lines_of (lit "ls /nodir" ++ [CR; LF] ++ lit "failed"
                           ++ [CR; LF])),
              [], 1%Z)).
Proof.
  refine (proj2 (proj2 (proj2 (proj2 (run_echo_ok ascii_runtime))))
            default_config (lit "ls /nodir") (Some 30%Z) utf8 strict
            (ready [Matched (blit "ls /nodir" ++ crlf ++ blit "failed" ++ crlf);
                    Matched (blit "echo $?" ++ crlf ++ blit "1" ++ crlf)])
            (blit "ls /nodir" ++ crlf ++ blit "failed" ++ crlf)
            (blit "echo $?" ++ crlf ++ blit "1" ++ crlf) []
            (lit "ls /nodir" ++ [CR; LF] ++ lit "failed" ++ [CR; LF])
            (lit "echo $?" ++ [CR; LF] ++ lit "1" ++ [CR; LF])
            (lit "1") 1%Z eq_refl eq_refl _ _ _ _).
  - vm_compute. reflexivity.
  - vm_compute. reflexivity.
  - vm_compute. reflexivity.
  - vm_compute. reflexivity.
Defined.

(** C6 (counterexample): filtering ["\x1b\x1bAA"] leaves ["\x1bA"], which
    is itself an escape sequence; a second pass removes it. *)
Lemma escape_filter_not_idempotent :
  escape_filter nested_escape = [ESC] ++ lit "A"
  /\ escape_filter (escape_filter nested_escape) = []
  /\ escape_filter (escape_filter nested_escape) <> escape_filter nested_escape.
Proof.
  repeat split; try (vm_compute; reflexivity).
  vm_compute. discriminate.
Qed.

(** C7: the filter returns a text unchanged when neither ["\x1b"] nor
    ["\x9b"] occurs in it, as characters of the text or as bytes of the
    capture it was decoded from; and it turns ["\x1b[31mHello\x1b[0m"]
    into ["Hello"]. *)
Theorem escape_filter_identity :
  (forall s : str, marker_free s -> escape_filter s = s)
  /\ (forall (bs : bytes) (s : str),
        decode_utf8 bs = Some s -> byte_marker_free bs -> escape_filter s = s)
  /\ escape_filter colour_hello = lit "Hello".
Proof.
  assert (G : forall s : str, marker_free s -> escape_filter s = s).
  { intros s H. apply vt100_sub_no_sequence, marker_free_no_sequence, H. }
  split; [exact G|split].
  - intros bs s Hd Hf. apply G.
    exact (decode_utf8_marker_free (Nat.le_refl _) Hd Hf).
  - vm_compute. reflexivity.
Qed.

Lemma escape_filter_identity_witness :
  escape_filter (lit "nsh> ") = lit "nsh> "
  /\ escape_filter [233; 65] = [233; 65].
Proof.
  split.
  - refine (proj1 escape_filter_identity (lit "nsh> ") _).
    repeat constructor; discriminate.
  - refine (proj1 (proj2 escape_filter_identity)
              [Byte.xc3; Byte.xa9; Byte.x41] [233; 65] eq_refl _).
    repeat constructor; discriminate.
Defined.

(** C8: once the command's own round trip has succeeded, [run] returns a
    triple whatever the [echo $?] round trip does; when the capture of
    that round trip has no line before the last, or that line is not a
    number, nothing is raised and the status is one of the sentinels -1
    and 255, and -1 when the last line carries no shell-error marker. *)
Theorem inference_failure_never_raises (rt : py_runtime) (cfg : config)
    (cmd : str) (timeout : option Z) (codec decodeerrors : str) (st : state)
    (before : bytes) (rest : list response) (text : str) :
  _status st = 1%Z ->
  pending st = Matched before :: rest ->
  decode_utf8 before = Some text ->
  (exists status,
     fst (run rt cfg true cmd timeout codec decodeerrors st)
     = Ok (Some (slice_1_m1 (lines_of text), [], status)))
  /\ (forall before2 rest2 text2,
        rest = Matched before2 :: rest2 ->
        decode_utf8 before2 = Some text2 ->
        getitem_neg (lines_of text2) 2 = None
        \/ (exists line, getitem_neg (lines_of text2) 2 = Some line
                         /\ py_int rt line = None) ->
        exists status,
          fst (run rt cfg true cmd timeout codec decodeerrors st)
          = Ok (Some (slice_1_m1 (lines_of text), [], status))
          /\ (status = (-1)%Z \/ status = 255%Z)
          /\ (marker_found (slice_1_m1 (lines_of text)) = false ->
              status = (-1)%Z)).
Proof.
  intros H1 Hp Hd. rewrite run_active.
  rewrite (_run_first_ok rt cfg cmd timeout codec decodeerrors st H1 Hp Hd).
  simpl. split.
  - eexists. reflexivity.
  - intros before2 rest2 text2 Hr Hd2 Hfail. subst rest. simpl. rewrite Hd2.
    exists (-1)%Z.
    destruct Hfail as [Hi|[line [Hi Hn]]]; rewrite Hi; [|rewrite Hn];
      (split; [reflexivity|split; [left; reflexivity|reflexivity]]).
Qed.

Lemma inference_failure_never_raises_witness :
  exists status,
    fst (run ascii_runtime default_config true (lit "foo") (Some 30%Z) utf8 strict
           (ready [Matched (blit "foo" ++ crlf ++ blit "bar" ++ crlf);
                   Matched (blit "echo $?" ++ crlf ++ blit "$?" ++ crlf)]))
    = Ok (Some (slice_1_m1 (lines_of (lit "foo" ++ [CR; LF] ++ lit "bar" ++ [CR; LF])),
                [], status))
    /\ (status = (-1)%Z \/ status = 255%Z)
    /\ (marker_found
          (slice_1_m1 (lines_of (lit "foo" ++ [CR; LF] ++ lit "bar" ++ [CR; LF])))
        = false -> status = (-1)%Z).
Proof.
  refine (proj2 (inference_failure_never_raises ascii_runtime default_config
                   (lit "foo") (Some 30%Z) utf8 strict
                   (ready [Matched (blit "foo" ++ crlf ++ blit "bar" ++ crlf);
                           Matched (blit "echo $?" ++ crlf ++ blit "$?" ++ crlf)])
                   eq_refl eq_refl _)
            _ _ (lit "echo $?" ++ [CR; LF] ++ lit "$?" ++ [CR; LF]) eq_refl _ _).
  - vm_compute. reflexivity.
  - vm_compute. reflexivity.
  - right. exists (lit "$?"). split; vm_compute; reflexivity.
Defined.

(** C9: [activate] on a ready driver changes nothing, so makes no console
    call; after an [activate] that returned, a second one changes nothing:
    the synchronization and the init commands are not run again. *)
Theorem on_activate_idempotent (rt : py_runtime) (cfg : config) (st : state) :
  (_status st = 1%Z -> on_activate rt cfg st = (Ok tt, st))
  /\ (fst (on_activate rt cfg st) = Ok tt ->
      on_activate rt cfg (snd (on_activate rt cfg st))
      = (Ok tt, snd (on_activate rt cfg st))).
Proof.
  split.
  - intros H. apply on_activate_active. rewrite H. discriminate.
  - intros Hok. apply on_activate_active.
    destruct (Z.eq_dec (_status st) 0) as [H0|H0].
    + destruct (pending st) as [|[before|] rest] eqn:Hp.
      * rewrite on_activate_boot_timeout in Hok by (try assumption; congruence).
        discriminate.
      * destruct (on_activate_boot_seen rt cfg st H0 Hp) as [Hs _].
        rewrite Hs. discriminate.
      * rewrite on_activate_boot_timeout in Hok by (try assumption; congruence).
        discriminate.
    + rewrite on_activate_active by assumption. exact H0.
Qed.

Lemma on_activate_idempotent_witness :
  on_activate ascii_runtime default_config (ready [Matched before_banner])
  = (Ok tt, ready [Matched before_banner])
  /\ on_activate ascii_runtime default_config
       (snd (on_activate ascii_runtime default_config
               (initial [Matched before_banner; Matched []])))
     = (Ok tt, snd (on_activate ascii_runtime default_config
                      (initial [Matched before_banner; Matched []]))).
Proof.
  split.
  - exact (proj1 (on_activate_idempotent ascii_runtime default_config
                    (ready [Matched before_banner])) eq_refl).
  - refine (proj2 (on_activate_idempotent ascii_runtime default_config
                     (initial [Matched before_banner; Matched []])) _).
    vm_compute. reflexivity.
Defined.

(** C10: [run] does not look at [codec] and [decodeerrors]: two calls that
    differ in them only give the same result and the same final state, and
    a capture that is not well-formed UTF-8 raises [UnicodeDecodeError]
    whatever they are. *)
Theorem run_ignores_codec (rt : py_runtime) (cfg : config)
    (cmd : str) (timeout : option Z) (st : state)
    (codec decodeerrors codec' decodeerrors' : str) :
  (forall active,
     run rt cfg active cmd timeout codec decodeerrors st
     = run rt cfg active cmd timeout codec' decodeerrors' st)
  /\ (forall before rest,
        _status st = 1%Z ->
        pending st = Matched before :: rest ->
        decode_utf8 before = None ->
        fst (run rt cfg true cmd timeout codec decodeerrors st)
        = Raise UnicodeDecodeError).
Proof.
  split; [intros active; reflexivity|].
  intros before rest H Hp Hd. rewrite run_active.
  exact (_run_first_undecodable rt cfg cmd timeout codec decodeerrors st H Hp Hd).
Qed.

Lemma run_ignores_codec_witness :
  fst (run ascii_runtime default_config true (lit "cat f") (Some 30%Z)
         (lit "latin-1") (lit "ignore") (ready [Matched [Byte.xff]]))
  = Raise UnicodeDecodeError.
Proof.
  exact (proj2 (run_ignores_codec ascii_runtime default_config (lit "cat f")
                  (Some 30%Z) (ready [Matched [Byte.xff]])
                  (lit "latin-1") (lit "ignore") utf8 strict)
           [Byte.xff] [] eq_refl eq_refl eq_refl).
Defined.

(** ** Further properties of the escape-sequence filter *)

Lemma exec_suffix (r : regex) :
  forall (s : str) (k : str -> option str) x, exec r s k = Some x ->
  exists pre t, s = pre ++ t /\ k t = Some x.
Proof.
  assert (one : forall (q : regex) (s : str) (k : str -> option str) x,
             match s with
             | c :: t => if accepts q c then k t else None
             | [] => None
             end = Some x ->
             exists pre t, s = pre ++ t /\ k t = Some x).
  { intros q [|c t] k x H; [discriminate|].
    destruct (accepts q c); [|discriminate].
    exists [c], t. split; [reflexivity|assumption]. }
  induction r as [c|rs|rs| |a IHa b IHb|a IHa b IHb|a IHa];
    intros s k x H;
    [exact (one (Lit c) s k x H) | exact (one (Set_ rs) s k x H)
    | exact (one (NotSet rs) s k x H) | exact (one Dot s k x H)
    | simpl in H ..].
  - apply IHa in H. destruct H as (p1 & t & -> & H).
    apply IHb in H. destruct H as (p2 & u & -> & H).
    exists (p1 ++ p2), u. split; [apply app_assoc|assumption].
  - destruct (exec a s k) eqn:E.
    + inversion H; subst. exact (IHa _ _ _ E).
    + exact (IHb _ _ _ H).
  - clear IHa. revert x H. induction s as [|c t IH]; intros x H; simpl in H.
    + exists [], []. split; [reflexivity|assumption].
    + destruct (accepts a c).
      * destruct (star (accepts a) k t) eqn:E.
        -- inversion H; subst. destruct (IH _ eq_refl) as (p & u & -> & Hu).
           exists (c :: p), u. split; [reflexivity|assumption].
        -- exists [], (c :: t). split; [reflexivity|assumption].
      * exists [], (c :: t). split; [reflexivity|assumption].
Qed.

Lemma subseq_refl {A : Type} (l : list A) : subseq l l.
Proof. induction l; constructor; assumption. Qed.

Lemma subseq_app_skip {A : Type} (pre l1 l2 : list A) :
  subseq l1 l2 -> subseq l1 (pre ++ l2).
Proof. intros H. induction pre; simpl; [assumption|constructor; assumption]. Qed.

Lemma vt100_sub_subseq (count : N) (s : str) :
  forall n, subseq (vt100_sub count n s) s.
Proof.
  assert (G : forall m (u : str), (length u <= m)%nat ->
              forall n, subseq (vt100_sub count n u) u).
  { induction m as [|m IH]; intros [|c t] Hle n; simpl in Hle; try lia;
      try (rewrite vt100_sub_equation_1; constructor).
    rewrite vt100_sub_cons.
    destruct ((count =? 0) || (n <? count)); [|apply subseq_refl].
    destruct (re_match re_vt100 (c :: t)) as [rest|] eqn:E.
    - pose proof (re_vt100_shorter _ E) as L. simpl in L.
      apply exec_suffix in E. destruct E as (pre & u & Hs & Hu).
      inversion Hu; subst u. rewrite Hs. apply subseq_app_skip.
      apply IH. lia.
    - apply subseq_keep. apply IH. lia. }
  exact (G (length s) s (Nat.le_refl _)).
Qed.

(** X1: the filter only deletes: its output is the input with some
    characters left out, in the same order. *)
Theorem escape_filter_only_deletes (s : str) :
  subseq (escape_filter s) s.
Proof. apply vt100_sub_subseq. Qed.

Lemma re_vt100_min_two (s rest : str) :
  re_match re_vt100 s = Some rest -> (length rest + 2 <= length s)%nat.
Proof.
  intros H. apply exec_min_len in H. destruct H as (t & H & Ht).
  inversion H; subst. exact Ht.
Qed.

Lemma vt100_sub_within_cap (count : N) :
  forall m (s : str) n n',
    (length s <= m)%nat ->
    count = 0 \/ N.of_nat (length s) <= 2 * (count - n) ->
    vt100_sub count n s = vt100_sub 0 n' s.
Proof.
  induction m as [|m IH]; intros [|c t] n n' Hle Hb; simpl in Hle; try lia;
    try (rewrite !vt100_sub_equation_1; reflexivity).
  rewrite !vt100_sub_cons.
  assert (Hg : (count =? 0) || (n <? count) = true).
  { apply orb_true_iff. destruct Hb as [Hb|Hb].
    - left. apply N.eqb_eq. exact Hb.
    - right. apply N.ltb_lt. simpl length in Hb. lia. }
  rewrite Hg. simpl orb.
  destruct (re_match re_vt100 (c :: t)) as [rest|] eqn:E.
  - apply re_vt100_min_two in E. simpl length in *.
    apply IH; [lia|]. destruct Hb as [Hb|Hb]; [left; exact Hb|right; lia].
  - f_equal. simpl length in *.
    apply IH; [lia|]. destruct Hb as [Hb|Hb]; [left; exact Hb|right; lia].
Qed.

Lemma vt100_sub_all_counter (s : str) (n : N) :
  vt100_sub 0 n s = vt100_sub_all s.
Proof.
  unfold vt100_sub_all.
  apply vt100_sub_within_cap with (m := length s); [apply Nat.le_refl|].
  left. reflexivity.
Qed.

Lemma escape_filter_uncapped (s : str) :
  N.of_nat (length s) <= 2000000 ->
  escape_filter s = vt100_sub_all s.
Proof.
  intros H. unfold escape_filter, vt100_sub_all.
  apply vt100_sub_within_cap with (m := length s); [apply Nat.le_refl|].
  right. simpl. exact H.
Qed.

(** X2: on a text of at most two million characters the limit of one
    million replacements is never reached: the filter does what a
    substitution without limit does. *)
Theorem escape_filter_cap_not_reached (s : str) :
  N.of_nat (length s) <= 2000000 ->
  escape_filter s = vt100_sub_all s.
Proof.
  intros H. unfold escape_filter, vt100_sub_all.
  apply vt100_sub_within_cap with (m := length s); [apply Nat.le_refl|].
  right. simpl. exact H.
Qed.

Lemma escape_filter_cap_not_reached_witness :
  escape_filter colour_hello = vt100_sub_all colour_hello.
Proof.
  refine (@escape_filter_cap_not_reached colour_hello _).
  vm_compute. discriminate.
Defined.

Lemma star_stops_at_final (k : str -> option str) (params rest : str) (f : char) x :
  Forall (fun c => is_final c = false) params ->
  is_final f = true ->
  k (f :: rest) = Some x ->
  star (accepts (NotSet final_set)) k (params ++ f :: rest) = Some x.
Proof.
  intros Hp Hf Hk. unfold is_final in *.
  induction Hp as [|c t Hc _ IH]; cbn [app star accepts].
  - rewrite Hf. exact Hk.
  - rewrite Hc. cbn [negb]. rewrite IH. reflexivity.
Qed.

Lemma star_without_final (params : str) :
  Forall (fun c => is_final c = false) params ->
  star (accepts (NotSet final_set)) (fun t => exec (Set_ final_set) t Some) params
  = None.
Proof.
  induction 1 as [|c t Hc _ IH]; [reflexivity|].
  unfold is_final in Hc. cbn [star accepts]. rewrite Hc. cbn [negb].
  rewrite IH. cbn [exec accepts]. rewrite Hc. reflexivity.
Qed.

Lemma re_vt100_csi (intro params rest : str) (f : char) :
  intro = [ESC; ch "["] \/ intro = [CSI] ->
  Forall (fun c => is_final c = false) params ->
  is_final f = true ->
  re_match re_vt100 (intro ++ params ++ f :: rest) = Some rest.
Proof.
  intros Hi Hp Hf.
  assert (S : star (accepts (NotSet final_set))
                (fun t => exec (Set_ final_set) t Some) (params ++ f :: rest)
              = Some rest).
  { apply star_stops_at_final; try assumption.
    cbn [exec accepts]. unfold is_final in Hf. rewrite Hf. reflexivity. }
  destruct Hi as [-> | ->]; unfold re_match, re_vt100;
    cbn [app exec accepts] in S |- *; rewrite ?N.eqb_refl;
    [|replace (CSI =? ESC) with false by reflexivity];
    rewrite S; reflexivity.
Qed.

Lemma vt100_sub_all_cons (c : char) (t : str) :
  vt100_sub_all (c :: t) =
  match re_match re_vt100 (c :: t) with
  | Some rest => vt100_sub_all rest
  | None => c :: vt100_sub_all t
  end.
Proof.
  unfold vt100_sub_all at 1. rewrite vt100_sub_cons. simpl orb.
  destruct (re_match re_vt100 (c :: t)); [apply vt100_sub_all_counter|].
  reflexivity.
Qed.

(** X3: a control sequence (["\x1b["] or ["\x9b"], then any characters
    outside [[@-_a-z]], then one character of [[@-_a-z]]) at the start of a
    text of at most two million characters is removed whole, parameters
    included, and filtering goes on after it. *)
Theorem escape_filter_removes_csi (intro params rest : str) (f : char) :
  intro = [ESC; ch "["] \/ intro = [CSI] ->
  Forall (fun c => is_final c = false) params ->
  is_final f = true ->
  N.of_nat (length (intro ++ params ++ f :: rest)) <= 2000000 ->
  escape_filter (intro ++ params ++ f :: rest) = escape_filter rest.
Proof.
  intros Hi Hp Hf Hl.
  pose proof (@re_vt100_csi intro params rest f Hi Hp Hf) as Hm.
  rewrite (@escape_filter_uncapped _ Hl).
  rewrite (escape_filter_uncapped rest)
    by (rewrite !length_app in Hl; simpl length in Hl; lia).
  destruct Hi as [-> | ->]; simpl app in *;
    rewrite vt100_sub_all_cons, Hm; reflexivity.
Qed.

Lemma escape_filter_removes_csi_witness :
  escape_filter ([ESC; ch "["] ++ lit "1;31" ++ ch "m" :: lit "red")
  = escape_filter (lit "red").
Proof.
  refine (@escape_filter_removes_csi [ESC; ch "["] (lit "1;31") (lit "red")
            (ch "m") (or_introl eq_refl) _ eq_refl _).
  - repeat constructor.
  - vm_compute. discriminate.
Defined.

Lemma re_vt100_two_char (f : char) (rest : str) :
  is_final f = true -> f <> ch "[" ->
  re_match re_vt100 (ESC :: f :: rest) = Some rest.
Proof.
  intros Hf Hb. unfold re_match, re_vt100. cbn [exec accepts].
  rewrite N.eqb_refl. apply N.eqb_neq in Hb. rewrite Hb.
  replace (ESC =? CSI) with false by reflexivity.
  unfold is_final in Hf. rewrite Hf. reflexivity.
Qed.

(** X4: ["\x1b"] followed by one character of [[@-_a-z]] other than ["["]
    is removed as a two-character escape. *)
Theorem escape_filter_removes_two_char (f : char) (rest : str) :
  is_final f = true -> f <> ch "[" ->
  N.of_nat (length (ESC :: f :: rest)) <= 2000000 ->
  escape_filter (ESC :: f :: rest) = escape_filter rest.
Proof.
  intros Hf Hb Hl.
  rewrite (@escape_filter_uncapped _ Hl).
  rewrite (escape_filter_uncapped rest) by (simpl length in Hl; lia).
  rewrite vt100_sub_all_cons, (@re_vt100_two_char f rest Hf Hb). reflexivity.
Qed.

Lemma escape_filter_removes_two_char_witness :
  escape_filter (ESC :: ch "M" :: lit "up") = escape_filter (lit "up").
Proof.
  refine (@escape_filter_removes_two_char (ch "M") (lit "up") eq_refl _ _).
  - discriminate.
  - vm_compute. discriminate.
Defined.

(** X5: a control sequence that the text cuts short (no character of
    [[@-_a-z]] after the introducer) is not removed: of ["\x1b["] only the
    two introducer characters go and the parameters stay; ["\x9b"] stays
    with its parameters. *)
Theorem escape_filter_unterminated_csi (params : str) :
  Forall (fun c => is_final c = false) params ->
  marker_free params ->
  escape_filter (ESC :: ch "[" :: params) = params
  /\ escape_filter (CSI :: params) = CSI :: params.
Proof.
  intros Hp Hm. pose proof (@star_without_final params Hp) as S.
  pose proof (@marker_free_no_sequence params Hm) as Hs.
  unfold escape_filter. split; rewrite vt100_sub_cons;
    replace ((1000000 =? 0) || (0 <? 1000000)) with true by reflexivity.
  - replace (re_match re_vt100 (ESC :: ch "[" :: params)) with (Some params).
    + apply vt100_sub_no_sequence. exact Hs.
    + unfold re_match, re_vt100. cbn [exec accepts] in S |- *.
      rewrite !N.eqb_refl, S.
      replace (ESC =? CSI) with false by reflexivity.
      replace (in_ranges final_set (ch "[")) with true by reflexivity.
      reflexivity.
  - replace (re_match re_vt100 (CSI :: params)) with (@None str).
    + f_equal. apply vt100_sub_no_sequence. exact Hs.
    + unfold re_match, re_vt100. cbn [exec accepts] in S |- *.
      replace (CSI =? ESC) with false by reflexivity.
      rewrite N.eqb_refl, S. reflexivity.
Qed.

Lemma escape_filter_unterminated_csi_witness :
  escape_filter (ESC :: ch "[" :: lit "31") = lit "31"
  /\ escape_filter (CSI :: lit "31") = CSI :: lit "31".
Proof.
  refine (@escape_filter_unterminated_csi (lit "31") _ _).
  - repeat constructor.
  - repeat constructor; discriminate.
Defined.

Lemma esc_closed_suffix (pre t : str) :
  esc_closed (pre ++ t) = true -> esc_closed t = true.
Proof.
  induction pre as [|a pre IH]; [trivial|].
  intros H. change (esc_closed ((a :: pre) ++ t))
    with ((if a =? ESC
           then match pre ++ t with d :: _ => is_final d | [] => false end
           else true) && esc_closed (pre ++ t)) in H.
  apply andb_true_iff in H. apply IH, H.
Qed.

Lemma re_vt100_esc_final (d : char) (t : str) :
  is_final d = true -> re_match re_vt100 (ESC :: d :: t) <> None.
Proof.
  intros Hd. unfold re_match, re_vt100. cbn [exec accepts].
  rewrite N.eqb_refl. replace (ESC =? CSI) with false by reflexivity.
  unfold is_final in Hd. rewrite Hd.
  destruct (d =? ch "[").
  - match goal with
    | |- match match ?x with _ => _ end with _ => _ end <> None =>
        destruct x; discriminate
    end.
  - discriminate.
Qed.

Lemma first_final (t : str) :
  Forall (fun c => is_final c = false) t
  \/ exists params f rest,
       t = params ++ f :: rest
       /\ Forall (fun c => is_final c = false) params
       /\ is_final f = true.
Proof.
  induction t as [|c t IH]; [left; constructor|].
  destruct (is_final c) eqn:Hc.
  - right. exists [], c, t. repeat split; [constructor|assumption].
  - destruct IH as [IH|(params & f & rest & -> & Hp & Hf)].
    + left. constructor; assumption.
    + right. exists (c :: params), f, rest.
      split; [reflexivity|]. split; [constructor; assumption|assumption].
Qed.

Lemma re_vt100_csi_none (t : str) :
  re_match re_vt100 (CSI :: t) = None ->
  Forall (fun c => is_final c = false) t.
Proof.
  intros H. destruct (first_final t) as [F|(params & f & rest & -> & Hp & Hf)];
    [exact F|].
  pose proof (@re_vt100_csi [CSI] params rest f (or_intror eq_refl) Hp Hf)
    as Hm.
  simpl app in Hm. rewrite Hm in H. discriminate.
Qed.

Lemma re_vt100_csi_open (t : str) :
  Forall (fun c => is_final c = false) t ->
  re_match re_vt100 (CSI :: t) = None.
Proof.
  intros Hp. pose proof (@star_without_final t Hp) as S.
  unfold re_match, re_vt100. cbn [exec accepts] in S |- *.
  replace (CSI =? ESC) with false by reflexivity.
  rewrite N.eqb_refl, S. reflexivity.
Qed.

Lemma subseq_Forall {A : Type} (P : A -> Prop) (l1 l2 : list A) :
  subseq l1 l2 -> Forall P l2 -> Forall P l1.
Proof.
  induction 1 as [|x l1 l2 _ IH|x l1 l2 _ IH]; intros F.
  - constructor.
  - inversion F; subst. apply IH. assumption.
  - inversion F; subst. constructor; [assumption|apply IH; assumption].
Qed.

(** Without the cap, the filter leaves no escape sequence in a text all of
    whose ["\x1b"] are followed by a final character. *)
Lemma vt100_sub_all_clean :
  forall m (s : str), (length s <= m)%nat ->
  esc_closed s = true -> has_sequence (vt100_sub_all s) = false.
Proof.
  induction m as [|m IH]; intros [|c t] Hl Hc; try reflexivity.
  - simpl in Hl. lia.
  - rewrite vt100_sub_all_cons.
    destruct (re_match re_vt100 (c :: t)) as [rest|] eqn:Hm.
    + pose proof (re_vt100_shorter _ Hm) as Hs.
      destruct (@exec_suffix re_vt100 (c :: t) Some rest Hm)
        as (pre & u & Hu & Hk).
      inversion Hk; subst u. apply IH.
      * simpl in Hl, Hs. lia.
      * apply esc_closed_suffix with (pre := pre). rewrite <- Hu. exact Hc.
    + assert (Ht : esc_closed t = true).
      { apply esc_closed_suffix with (pre := [c]). exact Hc. }
      assert (Hrec : has_sequence (vt100_sub_all t) = false).
      { apply IH; [simpl in Hl; lia|exact Ht]. }
      change (has_sequence (c :: vt100_sub_all t))
        with (matches re_vt100 (c :: vt100_sub_all t)
              || has_sequence (vt100_sub_all t)).
      rewrite Hrec, orb_false_r. unfold matches.
      destruct (N.eq_dec c ESC) as [->|He].
      * exfalso. destruct t as [|d t'].
        -- simpl in Hc. discriminate.
        -- apply (@re_vt100_esc_final d t'); [|exact Hm].
           change (esc_closed (ESC :: d :: t'))
             with ((if ESC =? ESC then is_final d else true)
                   && esc_closed (d :: t')) in Hc.
           rewrite N.eqb_refl in Hc. apply andb_true_iff in Hc. apply Hc.
      * destruct (N.eq_dec c CSI) as [->|Hcsi].
        -- rewrite re_vt100_csi_open; [reflexivity|].
           apply subseq_Forall with (l2 := t);
             [apply vt100_sub_subseq|apply re_vt100_csi_none, Hm].
        -- rewrite re_vt100_needs_marker by assumption. reflexivity.
Qed.

(** C6 (amended): on a text of at most two million characters in which
    every ["\x1b"] is directly followed by a character of [[@-_a-z]], the
    filter leaves no escape sequence, and a second pass returns the result
    of the first unchanged. *)
Theorem escape_filter_idempotent (s : str) :
  esc_closed s = true ->
  N.of_nat (length s) <= 2000000 ->
  has_sequence (escape_filter s) = false
  /\ escape_filter (escape_filter s) = escape_filter s.
Proof.
  intros Hc Hl.
  pose proof (@escape_filter_uncapped s Hl) as E.
  assert (H : has_sequence (escape_filter s) = false).
  { rewrite E. apply vt100_sub_all_clean with (m := length s);
      [apply Nat.le_refl|exact Hc]. }
  split; [exact H|]. apply escape_filter_fixed. exact H.
Qed.

Lemma escape_filter_idempotent_witness :
  has_sequence (escape_filter colour_hello) = false
  /\ escape_filter (escape_filter colour_hello) = escape_filter colour_hello.
Proof.
  refine (@escape_filter_idempotent colour_hello _ _).
  - vm_compute. reflexivity.
  - vm_compute. discriminate.
Defined.

Lemma esc_closed_escapes (j : nat) : esc_closed (escapes j) = true.
Proof.
  induction j as [|j IH]; [reflexivity|].
  change (esc_closed (escapes (S j)))
    with ((if ESC =? ESC then is_final (ch "A") else true)
          && ((if ch "A" =? ESC
               then match escapes j with d :: _ => is_final d | [] => false end
               else true)
              && esc_closed (escapes j))).
  rewrite IH. reflexivity.
Qed.

Lemma vt100_sub_escapes (count : N) :
  count <> 0 ->
  forall (j : nat) (n : N),
    vt100_sub count n (escapes j) = escapes (j - N.to_nat (count - n)).
Proof.
  intros Hc. induction j as [|j IH]; intros n.
  - simpl escapes. rewrite vt100_sub_equation_1. reflexivity.
  - change (escapes (S j)) with (ESC :: ch "A" :: escapes j) at 1.
    rewrite vt100_sub_cons.
    apply N.eqb_neq in Hc. rewrite Hc. cbn [orb].
    destruct (n <? count) eqn:Hn.
    + apply N.ltb_lt in Hn.
      rewrite (@re_vt100_two_char (ch "A") (escapes j) eq_refl)
        by discriminate.
      rewrite IH. f_equal. lia.
    + apply N.ltb_ge in Hn.
      replace (S j - N.to_nat (count - n))%nat with (S j) by lia.
      reflexivity.
Qed.

(** Past the cap of 1,000,000 replacements the filter leaves the rest of
    the text as it is: of 1,000,001 escapes ["\x1bA"] the last one stays,
    and a second pass removes it. *)
Lemma escape_filter_cap_reached :
  let s := escapes (N.to_nat 1000001) in
  esc_closed s = true
  /\ escape_filter s = [ESC; ch "A"]
  /\ escape_filter (escape_filter s) = [].
Proof.
  assert (E : escape_filter (escapes (N.to_nat 1000001)) = [ESC; ch "A"]).
  { unfold escape_filter. rewrite vt100_sub_escapes by discriminate.
    replace (N.to_nat 1000001 - N.to_nat (1000000 - 0))%nat with 1%nat by lia.
    reflexivity. }
  cbv zeta. split; [apply esc_closed_escapes|]. split; [exact E|].
  rewrite E. vm_compute. reflexivity.
Qed.

(** ** Further properties of the command executor *)

Lemma str_split_not_nil (sep : char) (s : str) : str_split sep s <> [].
Proof.
  induction s as [|c t IH]; simpl; [discriminate|].
  destruct (c =? sep); [discriminate|].
  destruct (str_split sep t); discriminate.
Qed.

Lemma str_split_sep (sep : char) (l rest : str) :
  ~ In sep l -> str_split sep (l ++ sep :: rest) = l :: str_split sep rest.
Proof.
  induction l as [|c t IH]; intros H; simpl.
  - rewrite N.eqb_refl. reflexivity.
  - assert (Hc : (c =? sep) = false).
    { apply N.eqb_neq. intros ->. apply H. left. reflexivity. }
    rewrite Hc, IH; [reflexivity|]. intros Hin. apply H. right. exact Hin.
Qed.

Lemma str_split_length (sep : char) (s : str) :
  length (str_split sep s) = S (count_occ N.eq_dec s sep).
Proof.
  induction s as [|c t IH]; [reflexivity|].
  simpl str_split. simpl count_occ.
  destruct (N.eq_dec c sep) as [->|Hne].
  - rewrite N.eqb_refl. simpl. rewrite IH. reflexivity.
  - apply N.eqb_neq in Hne. rewrite Hne.
    destruct (str_split sep t) as [|l ls] eqn:E; [discriminate IH|].
    simpl in *. exact IH.
Qed.

Lemma str_split_pieces (sep : char) (s : str) :
  Forall (fun l => ~ In sep l /\ forall c, In c l -> In c s) (str_split sep s).
Proof.
  induction s as [|c t IH]; simpl.
  - constructor; [|constructor]. split; [intros []|intros ? []].
  - destruct (c =? sep) eqn:E.
    + constructor.
      * split; [intros []|intros ? []].
      * eapply Forall_impl; [|exact IH]. intros l [H1 H2].
        split; [exact H1|]. intros x Hx. right. apply H2, Hx.
    + apply N.eqb_neq in E.
      destruct (str_split sep t) as [|l ls].
      * constructor; [|constructor]. split.
        -- intros [H|[]]. congruence.
        -- intros x [<-|[]]. left. reflexivity.
      * inversion IH as [|? ? [H1 H2] Hrest]; subst. constructor.
        -- split.
           ++ intros [H|H]; [congruence|exact (H1 H)].
           ++ intros x [<-|Hx]; [left; reflexivity|right; apply H2, Hx].
        -- eapply Forall_impl; [|exact Hrest]. intros l' [H3 H4].
           split; [exact H3|]. intros x Hx. right. apply H4, Hx.
Qed.

Lemma str_join_split (sep : char) (s : str) :
  str_join [sep] (str_split sep s) = s.
Proof.
  induction s as [|c t IH]; [reflexivity|].
  simpl str_split. destruct (c =? sep) eqn:E.
  - apply N.eqb_eq in E. subst c.
    pose proof (str_split_not_nil sep t) as Hn.
    destruct (str_split sep t) as [|l ls]; [contradiction|].
    change (str_join [sep] ([] :: l :: ls))
      with ([] ++ [sep] ++ str_join [sep] (l :: ls)).
    rewrite IH. reflexivity.
  - pose proof (str_split_not_nil sep t) as Hn.
    destruct (str_split sep t) as [|l ls]; [contradiction|].
    destruct ls as [|l2 ls].
    + simpl in *. rewrite IH. reflexivity.
    + change (str_join [sep] ((c :: l) :: l2 :: ls))
        with (c :: (l ++ [sep] ++ str_join [sep] (l2 :: ls))).
      change (str_join [sep] (l :: l2 :: ls))
        with (l ++ [sep] ++ str_join [sep] (l2 :: ls)) in IH.
      rewrite IH. reflexivity.
Qed.

Lemma str_replace_absent (old : char) (s : str) : ~ In old (str_replace old s).
Proof.
  unfold str_replace. intros H. apply filter_In in H. destruct H as [_ H].
  rewrite N.eqb_refl in H. discriminate.
Qed.

Lemma str_replace_subset (old : char) (s : str) (c : char) :
  In c (str_replace old s) -> In c s.
Proof. unfold str_replace. intros H. apply filter_In in H. apply H. Qed.

Lemma str_replace_count (old other : char) (s : str) :
  other <> old ->
  count_occ N.eq_dec (str_replace old s) other = count_occ N.eq_dec s other.
Proof.
  intros Hne. induction s as [|c t IH]; [reflexivity|]. simpl.
  destruct (c =? old) eqn:E; simpl.
  - apply N.eqb_eq in E. subst c.
    destruct (N.eq_dec old other); [congruence|exact IH].
  - destruct (N.eq_dec c other); rewrite IH; reflexivity.
Qed.

Lemma slice_1_m1_subset {A : Type} (l : list A) (x : A) :
  In x (slice_1_m1 l) -> In x l.
Proof.
  unfold slice_1_m1. destruct l as [|a l]; simpl; [intros []|].
  intros H. right. revert H. induction l as [|b l IH]; simpl; [intros []|].
  destruct l as [|c l]; [intros []|]. intros [<-|H].
  - left. reflexivity.
  - right. apply IH, H.
Qed.

Lemma removelast_length {A : Type} (l : list A) :
  length (removelast l) = (length l - 1)%nat.
Proof.
  induction l as [|a l IH]; [reflexivity|].
  destruct l as [|b l]; [reflexivity|].
  change (removelast (a :: b :: l)) with (a :: removelast (b :: l)).
  simpl length in *. rewrite IH. lia.
Qed.

Lemma slice_1_m1_length {A : Type} (l : list A) :
  length (slice_1_m1 l) = (length l - 2)%nat.
Proof.
  unfold slice_1_m1. rewrite removelast_length.
  destruct l; simpl; lia.
Qed.

Lemma slice_1_m1_middle {A : Type} (a b : A) (l : list A) :
  slice_1_m1 (a :: l ++ [b]) = l.
Proof. unfold slice_1_m1. simpl. apply removelast_last. Qed.

Section ExecutorFacts.
Variable rt : py_runtime.
Variable cfg : config.

Lemma _run_result_inv cmd timeout codec decodeerrors st data aux status :
  fst (_run rt cfg cmd timeout codec decodeerrors st)
  = Ok (Some (data, aux, status)) ->
  _status st = 1%Z
  /\ exists before rest text,
       pending st = Matched before :: rest
       /\ decode_utf8 before = Some text
       /\ data = slice_1_m1 (lines_of text)
       /\ aux = []
       /\ status = match inferred rt rest with
                   | Some n => n
                   | None => (-1)%Z
                   end.
Proof.
  intros H. destruct (Z.eq_dec (_status st) 1) as [H1|H1].
  2:{ rewrite _run_not_ready in H by assumption. discriminate. }
  split; [exact H1|].
  destruct (pending st) as [|[before|] rest] eqn:Hp.
  - rewrite _run_first_timeout in H by (try assumption; congruence).
    discriminate.
  - destruct (decode_utf8 before) as [text|] eqn:Hd.
    + rewrite (_run_first_ok rt cfg cmd timeout codec decodeerrors st H1 Hp Hd)
        in H.
      simpl in H. inversion H; subst.
      exists before, rest, text. repeat split; try reflexivity; assumption.
    + rewrite (_run_first_undecodable rt cfg cmd timeout codec decodeerrors
                 st H1 Hp Hd) in H.
      discriminate.
  - rewrite _run_first_timeout in H by (try assumption; congruence).
    discriminate.
Qed.

(** X6: in every result that [run] returns the second component is empty
    and no line contains ["\r"] or ["\n"]. *)
Theorem run_lines_clean active cmd timeout codec decodeerrors st
    data aux status :
  fst (run rt cfg active cmd timeout codec decodeerrors st)
  = Ok (Some (data, aux, status)) ->
  aux = [] /\ Forall (fun l => ~ In CR l /\ ~ In LF l) data.
Proof.
  intros H. destruct active; [|rewrite run_not_active in H; discriminate].
  rewrite run_active in H. apply _run_result_inv in H.
  destruct H as (_ & before & rest & text & _ & _ & -> & -> & _).
  split; [reflexivity|]. apply Forall_forall. intros l Hl.
  apply slice_1_m1_subset in Hl. unfold lines_of in Hl.
  pose proof (str_split_pieces LF
                (str_replace CR (vt100_sub 1000000 0 text))) as P.
  rewrite Forall_forall in P. destruct (P l Hl) as [HLF Hsub].
  split; [|exact HLF].
  intros HCR. apply Hsub in HCR. exact (str_replace_absent _ _ HCR).
Qed.

(** X7: in the ready state, when the first capture decodes, [run] returns
    one line less than the filtered capture has ["\n"], and no line when it
    has none or one. *)
Theorem run_line_count cmd timeout codec decodeerrors st before rest text :
  _status st = 1%Z ->
  pending st = Matched before :: rest ->
  decode_utf8 before = Some text ->
  exists data status,
    fst (run rt cfg true cmd timeout codec decodeerrors st)
    = Ok (Some (data, [], status))
    /\ length data = (count_occ N.eq_dec (escape_filter text) LF - 1)%nat.
Proof.
  intros H1 Hp Hd. rewrite run_active.
  rewrite (_run_first_ok rt cfg cmd timeout codec decodeerrors st H1 Hp Hd).
  simpl. eexists. eexists. split; [reflexivity|].
  rewrite slice_1_m1_length. unfold lines_of.
  rewrite str_split_length, str_replace_count by discriminate.
  unfold escape_filter. lia.
Qed.
End ExecutorFacts.

(** X8: splitting loses nothing: the lines of a capture joined with
    ["\n"] are the filtered text without its ["\r"]. *)
Theorem lines_of_join (text : str) :
  str_join [LF] (lines_of text) = str_replace CR (escape_filter text).
Proof. unfold lines_of. apply str_join_split. Qed.

Lemma str_replace_app (old : char) (a b : str) :
  str_replace old (a ++ b) = str_replace old a ++ str_replace old b.
Proof. apply filter_app. Qed.

Lemma str_replace_none (old : char) (s : str) :
  ~ In old s -> str_replace old s = s.
Proof.
  induction s as [|c t IH]; intros H; [reflexivity|]. simpl.
  assert (Hc : (c =? old) = false).
  { apply N.eqb_neq. intros ->. apply H. left. reflexivity. }
  rewrite Hc. simpl. f_equal. apply IH. intros Hin. apply H. right. exact Hin.
Qed.

Lemma plain_no_char (l : str) (c : char) :
  plain l -> c = CR \/ c = LF \/ c = ESC \/ c = CSI -> ~ In c l.
Proof.
  intros Hp Hc Hin. unfold plain in Hp. rewrite Forall_forall in Hp.
  destruct (Hp c Hin) as (H1 & H2 & H3 & H4).
  destruct Hc as [?|[?|[?|?]]]; contradiction.
Qed.

Lemma capture_of_marker_free (echo : str) (lines : list str) :
  plain echo -> Forall plain lines -> marker_free (capture_of echo lines).
Proof.
  intros He Hl. unfold marker_free, capture_of.
  assert (P : forall l, plain l -> Forall (fun c => c <> ESC /\ c <> CSI) l).
  { intros l H. eapply Forall_impl; [|exact H].
    intros c (_ & _ & H3 & H4). split; assumption. }
  assert (E : Forall (fun c => c <> ESC /\ c <> CSI) [CR; LF]).
  { repeat constructor; discriminate. }
  apply Forall_app. split; [apply P, He|].
  apply Forall_app. split; [exact E|].
  induction Hl as [|l ls Hl _ IH]; simpl; [constructor|].
  rewrite <- app_assoc. apply Forall_app. split; [apply P, Hl|].
  apply Forall_app. split; [exact E|exact IH].
Qed.

Lemma str_replace_capture (echo : str) (lines : list str) :
  plain echo -> Forall plain lines ->
  str_replace CR (capture_of echo lines)
  = echo ++ LF :: concat (List.map (fun l => l ++ [LF]) lines).
Proof.
  intros He Hl. unfold capture_of.
  rewrite str_replace_app, (@str_replace_none CR echo)
    by (apply plain_no_char; [exact He|left; reflexivity]).
  f_equal. rewrite str_replace_app.
  change (str_replace CR [CR; LF]) with [LF]. simpl. f_equal.
  induction Hl as [|l ls Hl _ IH]; simpl; [reflexivity|].
  rewrite <- app_assoc, !str_replace_app.
  rewrite (@str_replace_none CR l)
    by (apply plain_no_char; [exact Hl|left; reflexivity]).
  rewrite <- app_assoc. f_equal.
  change (str_replace CR [CR; LF]) with [LF]. simpl. f_equal. exact IH.
Qed.

Lemma str_split_lines (lines : list str) :
  Forall plain lines ->
  str_split LF (concat (List.map (fun l => l ++ [LF]) lines)) = lines ++ [[]].
Proof.
  induction 1 as [|l ls Hl _ IH]; simpl; [reflexivity|].
  rewrite <- app_assoc. simpl.
  rewrite str_split_sep
    by (apply plain_no_char; [exact Hl|right; left; reflexivity]).
  rewrite IH. reflexivity.
Qed.

Lemma lines_of_capture (echo : str) (lines : list str) :
  plain echo -> Forall plain lines ->
  lines_of (capture_of echo lines) = echo :: lines ++ [[]].
Proof.
  intros He Hl. unfold lines_of.
  rewrite vt100_sub_no_sequence
    by (apply marker_free_no_sequence, capture_of_marker_free; assumption).
  rewrite str_replace_capture by assumption.
  rewrite str_split_sep
    by (apply plain_no_char; [exact He|right; left; reflexivity]).
  rewrite str_split_lines by assumption. reflexivity.
Qed.

(** X9: when the capture is the echoed command and then the lines of
    output, each ended by ["\r\n"] and none with a line end or an escape
    marker inside, the lines that [_run] keeps are exactly the lines of
    output. *)
Theorem demarcation_exact (echo : str) (lines : list str) :
  plain echo -> Forall plain lines ->
  slice_1_m1 (lines_of (capture_of echo lines)) = lines.
Proof.
  intros He Hl. rewrite lines_of_capture by assumption.
  apply slice_1_m1_middle.
Qed.

Lemma demarcation_exact_witness :
  slice_1_m1 (lines_of (capture_of (lit "ls /") [lit "dev"; lit "proc"]))
  = [lit "dev"; lit "proc"].
Proof.
  refine (@demarcation_exact (lit "ls /") [lit "dev"; lit "proc"] _ _).
  - repeat constructor; discriminate.
  - repeat constructor; discriminate.
Defined.

Section IntFacts.
Variable rt : py_runtime.

Lemma classify_digit (c : char) :
  is_digit c = true -> classify rt c = TDigit (Z.of_N (c - 48)).
Proof.
  unfold is_digit, classify, between. intros H.
  apply andb_true_iff in H. destruct H as [H1 H2].
  apply N.leb_le in H1. apply N.leb_le in H2.
  replace ((9 <=? c) && (c <=? 13)) with false
    by (symmetry; apply andb_false_iff; right; apply N.leb_gt; lia).
  replace (c =? 32) with false by (symmetry; apply N.eqb_neq; lia).
  replace ((48 <=? c) && (c <=? 57)) with true
    by (symmetry; apply andb_true_iff; split; apply N.leb_le; lia).
  reflexivity.
Qed.

Lemma digits_of_digits (cs : str) :
  Forall (fun c => is_digit c = true) cs ->
  forall acc n,
    n + N.of_nat (length cs) <= 640 ->
    digits rt acc n (List.map (classify rt) cs)
    = Some (fold_left (fun a c => (a * 10 + Z.of_N (c - 48))%Z) cs acc).
Proof.
  induction 1 as [|c t Hc _ IH]; intros acc n Hn.
  - simpl. unfold too_many_digits.
    replace (640 <? n) with false
      by (symmetry; apply N.ltb_ge; simpl in Hn; lia).
    reflexivity.
  - simpl List.map. rewrite (classify_digit c Hc). simpl digits.
    rewrite IH by (simpl length in Hn; lia). reflexivity.
Qed.

Lemma py_int_decimal (cs : str) :
  cs <> [] ->
  Forall (fun c => is_digit c = true) cs ->
  N.of_nat (length cs) <= 640 ->
  py_int rt cs = Some (decimal_value cs).
Proof.
  intros Hne Hd Hl. destruct cs as [|c t]; [contradiction|].
  inversion Hd as [|? ? Hc Ht]; subst.
  unfold py_int. simpl List.map. rewrite (classify_digit c Hc).
  simpl skip_space. unfold number.
  rewrite digits_of_digits by (try assumption; simpl length in Hl; lia).
  reflexivity.
Qed.
End IntFacts.

Lemma digits_plain (cs : str) :
  Forall (fun c => is_digit c = true) cs -> plain cs.
Proof.
  intros H. eapply Forall_impl; [|exact H]. intros c Hc.
  unfold is_digit, between in Hc. apply andb_true_iff in Hc.
  destruct Hc as [H1 H2]. apply N.leb_le in H1. apply N.leb_le in H2.
  unfold CR, LF, ESC, CSI. repeat split; lia.
Qed.

(** X10: on a console that echoes each command and ends every line with
    ["\r\n"], [run] in the ready state returns the lines of output and the
    number that the answer to [echo $?] spells in decimal digits (at most
    640 of them). *)
Theorem run_returns_output_and_status (rt : py_runtime) (cfg : config)
    (cmd : str) (timeout : option Z) (codec decodeerrors : str) (st : state)
    (b1 b2 : bytes) (rest : list response)
    (echo echo2 digits : str) (lines : list str) :
  _status st = 1%Z ->
  pending st = Matched b1 :: Matched b2 :: rest ->
  decode_utf8 b1 = Some (capture_of echo lines) ->
  decode_utf8 b2 = Some (capture_of echo2 [digits]) ->
  plain echo -> Forall plain lines -> plain echo2 ->
  digits <> [] ->
  Forall (fun c => is_digit c = true) digits ->
  N.of_nat (length digits) <= 640 ->
  fst (run rt cfg true cmd timeout codec decodeerrors st)
  = Ok (Some (lines, [], decimal_value digits)).
Proof.
  intros H1 Hp Hd1 Hd2 He Hl He2 Hne Hdig Hlen. rewrite run_active.
  rewrite (_run_first_ok rt cfg cmd timeout codec decodeerrors st H1 Hp Hd1).
  simpl. rewrite Hd2, lines_of_capture by assumption.
  rewrite slice_1_m1_middle.
  assert (Hd : Forall plain [digits]).
  { constructor; [apply digits_plain, Hdig|constructor]. }
  rewrite lines_of_capture by assumption.
  change (getitem_neg (echo2 :: [digits] ++ [[]]) 2) with (Some digits).
  cbv iota beta. rewrite py_int_decimal by assumption. reflexivity.
Qed.

Lemma run_returns_output_and_status_witness :
  fst (run ascii_runtime default_config true (lit "ls /") (Some 30%Z) utf8 strict
         (ready [Matched (blit "ls /" ++ crlf ++ blit "dev" ++ crlf);
                 Matched (blit "echo $?" ++ crlf ++ blit "17" ++ crlf)]))
  = Ok (Some ([lit "dev"], [], 17%Z)).
Proof.
  refine (@run_returns_output_and_status ascii_runtime default_config
            (lit "ls /") (Some 30%Z) utf8 strict
            (ready [Matched (blit "ls /" ++ crlf ++ blit "dev" ++ crlf);
                    Matched (blit "echo $?" ++ crlf ++ blit "17" ++ crlf)])
            (blit "ls /" ++ crlf ++ blit "dev" ++ crlf)
            (blit "echo $?" ++ crlf ++ blit "17" ++ crlf) []
            (lit "ls /") (lit "echo $?") (lit "17") [lit "dev"]
            eq_refl eq_refl _ _ _ _ _ _ _ _).
  - vm_compute. reflexivity.
  - vm_compute. reflexivity.
  - repeat constructor; discriminate.
  - repeat constructor; discriminate.
  - repeat constructor; discriminate.
  - discriminate.
  - repeat constructor.
  - vm_compute. discriminate.
Defined.

Lemma run_lines_clean_witness :
  [] = @nil str
  /\ Forall (fun l => ~ In CR l /\ ~ In LF l) [lit "OK"].
Proof.
  refine (@run_lines_clean ascii_runtime default_config true (lit "echo OK")
            (Some 30%Z) utf8 strict (ready echo_ok_script)
            [lit "OK"] [] 0%Z _).
  vm_compute. reflexivity.
Defined.

Lemma run_line_count_witness :
  exists data status,
    fst (run ascii_runtime default_config true (lit "true") (Some 30%Z) utf8 strict
           (ready [Matched (blit "true" ++ crlf)]))
    = Ok (Some (data, [], status))
    /\ length data
       = (count_occ N.eq_dec (escape_filter (lit "true" ++ [CR; LF])) LF - 1)%nat.
Proof.
  refine (@run_line_count ascii_runtime default_config (lit "true")
            (Some 30%Z) utf8 strict (ready [Matched (blit "true" ++ crlf)])
            (blit "true" ++ crlf) [] (lit "true" ++ [CR; LF])
            eq_refl eq_refl _).
  vm_compute. reflexivity.
Defined.

(** ** The calls made on the console *)

Lemma rounds_app (cfg : config) (a b : list event) :
  rounds cfg a -> rounds cfg b -> rounds cfg (a ++ b).
Proof. induction 1; simpl; [trivial|]. intros Hb. constructor. auto. Qed.

Lemma sent_app (a b : list event) : sent (a ++ b) = sent a ++ sent b.
Proof. apply flat_map_app. Qed.

(** What one call of [_run] adds to the trace and takes from the
    answers. *)
Lemma _run_footprint (rt : py_runtime) (cfg : config)
    (cmd : str) (timeout : option Z) (codec decodeerrors : str) (st : state) :
  let st' := snd (_run rt cfg cmd timeout codec decodeerrors st) in
  _status st' = _status st
  /\ errors st' = errors st
  /\ exists evs,
       trace st' = trace st ++ evs
       /\ rounds cfg evs
       /\ (_status st <> 1%Z -> evs = [])
       /\ sent evs
          = (if (_status st =? 1)%Z
             then match pending st with
                  | Matched before :: _ =>
                      match decode_utf8 before with
                      | Some _ => [cmd; lit "echo $?"]
                      | None => [cmd]
                      end
                  | _ => [cmd]
                  end
             else [])
       /\ pending st' = skipn (length (sent evs)) (pending st).
Proof.
  destruct (Z.eq_dec (_status st) 1) as [H1|H1].
  2:{ rewrite _run_not_ready by assumption. simpl.
      apply Z.eqb_neq in H1. rewrite H1.
      split; [reflexivity|split; [reflexivity|]]. exists [].
      rewrite app_nil_r.
      split; [reflexivity|]. split; [constructor|]. split; [reflexivity|].
      split; reflexivity. }
  assert (B : (_status st =? 1)%Z = true) by (apply Z.eqb_eq; exact H1).
  rewrite B.
  assert (T : forall r,
             let st1 := answered (record (Expect (prompt cfg) timeout r)
                                         (record (Sendline cmd) st)) in
             _status st1 = _status st /\ errors st1 = errors st
             /\ exists evs,
                  trace st1 = trace st ++ evs /\ rounds cfg evs
                  /\ (_status st <> 1%Z -> evs = [])
                  /\ sent evs = [cmd]
                  /\ pending st1 = skipn (length (sent evs)) (pending st)).
  { intros r. simpl. split; [reflexivity|split; [reflexivity|]].
    exists [Sendline cmd; Expect (prompt cfg) timeout r].
    rewrite <- app_assoc.
    split; [reflexivity|]. split; [repeat constructor|].
    split; [intros H; contradiction|].
    split; [reflexivity|].
    destruct (pending st); reflexivity. }
  destruct (pending st) as [|[before|] rest] eqn:Hp.
  - rewrite _run_first_timeout by (try assumption; congruence). apply T.
  - destruct (decode_utf8 before) as [text|] eqn:Hd.
    + rewrite (_run_first_ok rt cfg cmd timeout codec decodeerrors st H1 Hp Hd).
      simpl. split; [reflexivity|split; [reflexivity|]].
      eexists [Sendline cmd; Expect (prompt cfg) timeout (Matched before);
               Sendline (lit "echo $?"); Expect (prompt cfg) timeout _].
      rewrite <- !app_assoc.
      split; [reflexivity|]. split; [repeat constructor|].
      split; [intros H; contradiction|].
      split; [reflexivity|].
      rewrite Hp. reflexivity.
    + pose proof (T (Matched before)) as T'. simpl in T'.
      assert (E : snd (_run rt cfg cmd timeout codec decodeerrors st)
                  = answered (record (Expect (prompt cfg) timeout (Matched before))
                                     (record (Sendline cmd) st))).
      { unfold_driver. rewrite H1. simpl. rewrite Hp, Hd. reflexivity. }
      rewrite E. simpl. exact T'.
  - rewrite _run_first_timeout by (try assumption; congruence). apply T.
Qed.

(** X11: [run] never changes the status and never logs; on the console it
    makes whole round trips only (a line, then a wait for the prompt): none
    when its guard [check_active] does not pass or the driver is not ready,
    else the command, and after a capture that decodes also [echo $?], and
    nothing else; it takes one answer per round trip. *)
Theorem run_footprint (rt : py_runtime) (cfg : config) (active : bool)
    (cmd : str) (timeout : option Z) (codec decodeerrors : str) (st : state) :
  let st' := snd (run rt cfg active cmd timeout codec decodeerrors st) in
  _status st' = _status st
  /\ errors st' = errors st
  /\ exists evs,
       trace st' = trace st ++ evs
       /\ rounds cfg evs
       /\ sent evs
          = (if active && (_status st =? 1)%Z
             then match pending st with
                  | Matched before :: _ =>
                      match decode_utf8 before with
                      | Some _ => [cmd; lit "echo $?"]
                      | None => [cmd]
                      end
                  | _ => [cmd]
                  end
             else [])
       /\ pending st' = skipn (length (sent evs)) (pending st).
Proof.
  destruct active.
  - destruct (_run_footprint rt cfg cmd timeout codec decodeerrors st)
      as (Hs & He & evs & Ht & Hr & _ & Hsent & Hp).
    rewrite run_active. split; [exact Hs|split; [exact He|]].
    exists evs. repeat split; assumption.
  - rewrite run_not_active. simpl.
    split; [reflexivity|split; [reflexivity|]]. exists [].
    rewrite app_nil_r. split; [reflexivity|]. split; [constructor|].
    split; reflexivity.
Qed.

Lemma sync_rest_unfold (rt : py_runtime) (cfg : config) :
  sync_rest rt cfg
  = (expect (prompt cfg) None ;; for_each (init_commands cfg) (init_step rt cfg)).
Proof. reflexivity. Qed.

Lemma init_step_footprint (rt : py_runtime) (cfg : config) (command : str)
    (st : state) :
  let st' := snd (init_step rt cfg command st) in
  _status st' = _status st
  /\ exists evs, trace st' = trace st ++ evs /\ rounds cfg evs
                 /\ (_status st <> 1%Z -> evs = []).
Proof.
  pose proof (_run_footprint rt cfg command (Some 30%Z) (lit "utf-8")
                (lit "strict") st) as F.
  unfold init_step, bind.
  destruct (_run rt cfg command (Some 30%Z) (lit "utf-8") (lit "strict") st)
    as [[r|e] st1].
  - simpl in F. destruct F as (Hs & _ & evs & Ht & Hr & Hn & _).
    assert (G : forall m : M unit,
               (forall s, _status (snd (m s)) = _status s
                          /\ trace (snd (m s)) = trace s) ->
               _status (snd (m st1)) = _status st
               /\ exists evs0, trace (snd (m st1)) = trace st ++ evs0
                               /\ rounds cfg evs0
                               /\ (_status st <> 1%Z -> evs0 = [])).
    { intros m Hm. destruct (Hm st1) as [A B]. rewrite A, B.
      split; [exact Hs|]. exists evs. repeat split; assumption. }
    destruct r as [[[out aux] err]|].
    + destruct (negb (err =? 0)%Z); apply G; intros s; split; reflexivity.
    + apply G. intros s. split; reflexivity.
  - simpl in F |- *. destruct F as (Hs & _ & evs & Ht & Hr & Hn & _).
    split; [exact Hs|]. exists evs. repeat split; assumption.
Qed.

Lemma init_loop_footprint (rt : py_runtime) (cfg : config) (cmds : list str) :
  forall st,
    let st' := snd (for_each cmds (init_step rt cfg) st) in
    _status st' = _status st
    /\ exists evs, trace st' = trace st ++ evs /\ rounds cfg evs
                   /\ (_status st <> 1%Z -> evs = []).
Proof.
  induction cmds as [|c cmds IH]; intros st; simpl.
  - split; [reflexivity|]. exists []. rewrite app_nil_r.
    repeat split; constructor.
  - pose proof (init_step_footprint rt cfg c st) as F. unfold bind.
    destruct (init_step rt cfg c st) as [[[]|e] st1]; simpl in F.
    + destruct F as (Hs & evs & Ht & Hr & Hn).
      destruct (IH st1) as (Hs2 & evs2 & Ht2 & Hr2 & Hn2).
      split; [congruence|]. exists (evs ++ evs2).
      rewrite Ht2, Ht, app_assoc.
      split; [reflexivity|]. split; [apply rounds_app; assumption|].
      intros H. rewrite (Hn H), (Hn2 ltac:(congruence)). reflexivity.
    + simpl. exact F.
Qed.

Lemma on_activate_trace (rt : py_runtime) (cfg : config) (st : state) :
  exists evs,
    trace (snd (on_activate rt cfg st)) = trace st ++ evs
    /\ (evs = []
        \/ evs = [Expect (boot_expression cfg) (Some (login_timeout cfg)) TimedOut]
        \/ exists before evs',
             evs = Expect (boot_expression cfg) (Some (login_timeout cfg))
                          (Matched before) :: evs'
             /\ exists r evs'', evs' = Expect (prompt cfg) None r :: evs''
                                /\ rounds cfg evs'').
Proof.
  destruct (Z.eq_dec (_status st) 0) as [H0|H0].
  2:{ rewrite on_activate_active by assumption. exists [].
      rewrite app_nil_r. split; [reflexivity|left; reflexivity]. }
  assert (T : (forall before rest, pending st <> Matched before :: rest) ->
              exists evs,
                trace (snd (on_activate rt cfg st)) = trace st ++ evs
                /\ (evs = []
                    \/ evs = [Expect (boot_expression cfg)
                                (Some (login_timeout cfg)) TimedOut]
                    \/ exists before evs',
                         evs = Expect (boot_expression cfg)
                                 (Some (login_timeout cfg)) (Matched before)
                               :: evs'
                         /\ exists r evs'',
                              evs' = Expect (prompt cfg) None r :: evs''
                              /\ rounds cfg evs'')).
  { intros Hp. rewrite on_activate_boot_timeout by assumption.
    eexists. split; [reflexivity|right; left; reflexivity]. }
  destruct (pending st) as [|[before|] rest] eqn:Hp;
    [apply T; congruence| |apply T; congruence].
  rewrite (on_activate_boot_matched rt cfg st H0 Hp), sync_rest_unfold.
  unfold bind at 1. unfold expect at 1.
  assert (Ht1 : trace (boot_done cfg before st)
                = trace st ++ [Expect (boot_expression cfg)
                                 (Some (login_timeout cfg)) (Matched before)])
    by reflexivity.
  revert Ht1. generalize (boot_done cfg before st). intros st1 Ht1.
  destruct (pending st1) as [|[b1|] rest1].
  - simpl. rewrite Ht1, <- app_assoc. eexists. split; [reflexivity|].
    right. right. eexists. eexists. split; [reflexivity|].
    eexists. exists []. split; [reflexivity|constructor].
  - match goal with
    | |- context [for_each _ _ ?s] =>
        destruct (init_loop_footprint rt cfg (init_commands cfg) s)
          as (_ & evs & Ht & Hr & _)
    end.
    rewrite Ht. simpl trace. rewrite Ht1, <- !app_assoc.
    eexists. split; [reflexivity|].
    right. right. eexists. eexists. split; [reflexivity|].
    eexists. exists evs. split; [reflexivity|exact Hr].
  - simpl. rewrite Ht1, <- app_assoc. eexists. split; [reflexivity|].
    right. right. eexists. eexists. split; [reflexivity|].
    eexists. exists []. split; [reflexivity|constructor].
Qed.

Lemma boot_seen_app (cfg : config) (a b : list event) :
  boot_seen cfg a -> boot_seen cfg (a ++ b).
Proof. intros [x H]. exists x. apply in_or_app. left. exact H. Qed.

Lemma rounds_next (cfg : config) (evs : list event) :
  rounds cfg evs ->
  forall pre line post,
    evs = pre ++ Sendline line :: post ->
    exists timeout r post', post = Expect (prompt cfg) timeout r :: post'.
Proof.
  induction 1 as [|l t r evs _ IH]; intros pre line post E.
  - destruct pre; discriminate.
  - destruct pre as [|x [|y pre]]; simpl in E.
    + inversion E; subst. eexists. eexists. eexists. reflexivity.
    + inversion E.
    + inversion E; subst. eapply IH. reflexivity.
Qed.

Lemma disciplined_app (cfg : config) (tr evs : list event) :
  disciplined cfg tr ->
  (forall pre line post,
     evs = pre ++ Sendline line :: post ->
     boot_seen cfg (tr ++ pre)
     /\ exists timeout r post', post = Expect (prompt cfg) timeout r :: post') ->
  disciplined cfg (tr ++ evs).
Proof.
  intros J K pre line post E. apply app_eq_app in E.
  destruct E as [l [[E1 E2]|[E1 E2]]].
  - destruct l as [|e l]; simpl in E2.
    + subst. rewrite app_nil_r in *.
      destruct (K [] line post eq_refl) as [B N].
      rewrite app_nil_r in B. split; assumption.
    + inversion E2; subst.
      destruct (J pre line l eq_refl) as [B (t & r & post' & ->)].
      split; [exact B|]. eexists. eexists. eexists. reflexivity.
  - subst. exact (K l line post eq_refl).
Qed.

(** X12: in every reachable state, every line in the trace of console
    calls was sent after a match of the boot expression and is followed at
    once by a wait for the prompt: the driver writes nothing to a console
    it has not seen boot, and never sends two lines in a row. *)
Theorem reachable_disciplined (rt : py_runtime) (cfg : config) (st : state) :
  reachable rt cfg st -> disciplined cfg (trace st).
Proof.
  intros R.
  assert (G : (_status st = 1%Z -> boot_seen cfg (trace st))
              /\ disciplined cfg (trace st)); [|exact (proj2 G)].
  induction R as [script|st c _ [IHb IHd]].
  - split; [discriminate|]. intros pre line post E. destruct pre; discriminate.
  - destruct c as [| |active cmd timeout codec de|]; simpl.
    + destruct (on_activate_trace rt cfg st) as (evs & Ht & Hevs).
      split.
      * intros H1. destruct (Z.eq_dec (_status st) 0) as [H0|H0].
        -- destruct (pending st) as [|[before|] rest] eqn:Hp.
           ++ rewrite on_activate_boot_timeout in H1
                by (try assumption; congruence).
              simpl in H1. congruence.
           ++ destruct (on_activate_boot_seen rt cfg st H0 Hp) as [_ [e He]].
              exists before. rewrite He. apply in_or_app. right. left.
              reflexivity.
           ++ rewrite on_activate_boot_timeout in H1
                by (try assumption; congruence).
              simpl in H1. congruence.
        -- rewrite on_activate_active in * by assumption. apply IHb, H1.
      * rewrite Ht. apply disciplined_app; [exact IHd|].
        intros pre line post E.
        destruct Hevs as [->|[->|(before & evs' & -> & r & evs'' & -> & Hr)]].
        -- destruct pre; discriminate.
        -- destruct pre as [|x [|y pre]]; discriminate.
        -- destruct pre as [|x [|y pre]]; try discriminate.
           inversion E; subst. split.
           ++ exists before. apply in_or_app. right. left. reflexivity.
           ++ eapply rounds_next; [exact Hr|reflexivity].
    + split; [discriminate|exact IHd].
    + destruct active; [|rewrite run_not_active; split; assumption].
      destruct (_run_footprint rt cfg cmd timeout codec de st)
        as (Hs & _ & evs & Ht & Hr & Hn & _).
      rewrite run_active, Hs, Ht. split.
      * intros H1. apply boot_seen_app, IHb, H1.
      * apply disciplined_app; [exact IHd|]. intros pre line post E.
        split; [|eapply rounds_next; eassumption].
        apply boot_seen_app, IHb.
        destruct (Z.eq_dec (_status st) 1) as [H1|H1]; [exact H1|].
        rewrite (Hn H1) in E. destruct pre; discriminate.
    + split; assumption.
Qed.

Lemma reachable_disciplined_witness :
  disciplined default_config
    (trace (perform ascii_runtime default_config
              (Run true (lit "echo OK") (Some 30%Z) utf8 strict)
              (perform ascii_runtime default_config Activate
                 (initial ([Matched before_banner; Matched []]
                           ++ echo_ok_script))))).
Proof.
  exact (@reachable_disciplined ascii_runtime default_config _
           (reach_call _ (reach_call Activate (reach_initial _ _ _)))).
Defined.

(** ** Activation with init commands *)

Lemma inferred_head (rt : py_runtime) (r : response) (rest : list response) :
  inferred rt (r :: rest) = inferred rt [r].
Proof. reflexivity. Qed.

Lemma init_loop_completes (rt : py_runtime) (cfg : config) :
  forall (cmds : list str) (answers : list (bytes * response))
         (st : state) (rest : list response),
    _status st = 1%Z ->
    length answers = length cmds ->
    Forall (fun a => decode_utf8 (fst a) <> None) answers ->
    pending st = init_script answers ++ rest ->
    let r := for_each cmds (init_step rt cfg) st in
    fst r = Ok tt
    /\ _status (snd r) = 1%Z
    /\ pending (snd r) = rest
    /\ sent (trace (snd r))
       = sent (trace st) ++ flat_map (fun c => [c; lit "echo $?"]) cmds
    /\ errors (snd r) = errors st ++ flat_map (init_report rt) answers.
Proof.
  induction cmds as [|c cmds IH]; intros [|[b r2] answers] st rest H1 Hlen Hdec Hp;
    try discriminate Hlen.
  - simpl in *. rewrite !app_nil_r. repeat split; trivial.
  - inversion Hdec as [|? ? Hb Hdec']; subst. simpl in Hb.
    destruct (decode_utf8 b) as [text|] eqn:Hd; [clear Hb|contradiction].
    simpl in Hp.
    pose proof (_run_first_ok rt cfg c (Some 30%Z) (lit "utf-8") (lit "strict")
                  st H1 Hp Hd) as E.
    rewrite inferred_head in E.
    set (err := match inferred rt [r2] with
                | Some n => n
                | None => (-1)%Z
                end) in *.
    assert (S : exists st2,
               init_step rt cfg c st = (Ok tt, st2)
               /\ _status st2 = 1%Z
               /\ pending st2 = init_script answers ++ rest
               /\ sent (trace st2) = sent (trace st) ++ [c; lit "echo $?"]
               /\ errors st2 = errors st ++ init_report rt (b, r2)).
    { unfold init_step, bind. rewrite E.
      assert (Hs : sent (trace (after_second cfg c (Some 30%Z) b st))
                   = sent (trace st) ++ [c; lit "echo $?"]).
      { simpl. rewrite !sent_app. simpl. rewrite !app_nil_r, <- app_assoc.
        reflexivity. }
      assert (Hq : pending (after_second cfg c (Some 30%Z) b st)
                   = init_script answers ++ rest).
      { simpl. rewrite Hp. reflexivity. }
      unfold init_report. simpl fst. simpl snd. rewrite Hd. fold err.
      destruct (negb (err =? 0)%Z).
      - eexists. split; [reflexivity|]. simpl.
        split; [exact H1|]. split; [rewrite Hp; reflexivity|].
        split; [exact Hs|reflexivity].
      - eexists. split; [reflexivity|].
        split; [exact H1|]. split; [exact Hq|].
        split; [exact Hs|]. simpl. rewrite app_nil_r. reflexivity. }
    destruct S as (st2 & E2 & Hs2 & Hp2 & Hsent2 & Herr2).
    simpl for_each. unfold bind at 1. rewrite E2.
    destruct (IH answers st2 rest Hs2 ltac:(simpl in Hlen; lia) Hdec' Hp2)
      as (R1 & R2 & R3 & R4 & R5).
    split; [exact R1|]. split; [exact R2|]. split; [exact R3|].
    split.
    + rewrite R4, Hsent2, <- app_assoc. reflexivity.
    + rewrite R5, Herr2, <- app_assoc. reflexivity.
Qed.

Lemma on_activate_completes (rt : py_runtime) (cfg : config) (st : state)
    (b0 b1 : bytes) (answers : list (bytes * response)) (rest : list response) :
  _status st = 0%Z ->
  pending st = Matched b0 :: Matched b1 :: init_script answers ++ rest ->
  length answers = length (init_commands cfg) ->
  Forall (fun a => decode_utf8 (fst a) <> None) answers ->
  let r := on_activate rt cfg st in
  fst r = Ok tt
  /\ _status (snd r) = 1%Z
  /\ pending (snd r) = rest
  /\ sent (trace (snd r))
     = sent (trace st)
       ++ flat_map (fun c => [c; lit "echo $?"]) (init_commands cfg)
  /\ errors (snd r) = errors st ++ flat_map (init_report rt) answers.
Proof.
  intros H0 Hp Hlen Hdec.
  assert (Hq : pending (boot_done cfg b0 st)
               = Matched b1 :: init_script answers ++ rest).
  { simpl. rewrite Hp. reflexivity. }
  assert (E : on_activate rt cfg st
              = for_each (init_commands cfg) (init_step rt cfg)
                  (answered (record (Expect (prompt cfg) None (Matched b1))
                                    (boot_done cfg b0 st)))).
  { rewrite (on_activate_boot_matched rt cfg st H0 Hp), sync_rest_unfold.
    unfold bind at 1. unfold expect at 1. rewrite Hq. reflexivity. }
  cbv zeta. rewrite E.
  destruct (@init_loop_completes rt cfg (init_commands cfg) answers
              (answered (record (Expect (prompt cfg) None (Matched b1))
                                (boot_done cfg b0 st))) rest)
    as (R1 & R2 & R3 & R4 & R5);
    [reflexivity|exact Hlen|exact Hdec|simpl; rewrite Hp; reflexivity|].
  split; [exact R1|]. split; [exact R2|]. split; [exact R3|]. split.
  - rewrite R4. simpl trace. rewrite !sent_app. simpl.
    rewrite !app_nil_r. reflexivity.
  - rewrite R5. reflexivity.
Qed.

(** X13: when the console answers the boot wait, the prompt wait and the
    first round trip of every init command with a match whose capture
    decodes, [activate] returns, leaves the driver ready, has taken exactly
    these answers and has sent every init command, each followed by
    [echo $?], in order; what the [echo $?] round trips answer makes no
    difference. *)
Theorem on_activate_runs_init_commands (rt : py_runtime) (cfg : config)
    (st : state) (b0 b1 : bytes) (answers : list (bytes * response))
    (rest : list response) :
  _status st = 0%Z ->
  pending st = Matched b0 :: Matched b1 :: init_script answers ++ rest ->
  length answers = length (init_commands cfg) ->
  Forall (fun a => decode_utf8 (fst a) <> None) answers ->
  fst (on_activate rt cfg st) = Ok tt
  /\ _status (snd (on_activate rt cfg st)) = 1%Z
  /\ pending (snd (on_activate rt cfg st)) = rest
  /\ sent (trace (snd (on_activate rt cfg st)))
     = sent (trace st)
       ++ flat_map (fun c => [c; lit "echo $?"]) (init_commands cfg).
Proof.
  intros H0 Hp Hlen Hdec.
  destruct (@on_activate_completes rt cfg st b0 b1 answers rest H0 Hp Hlen Hdec)
    as (R1 & R2 & R3 & R4 & _).
  repeat split; assumption.
Qed.

Lemma on_activate_runs_init_commands_witness :
  fst (on_activate ascii_runtime init_config
         (initial (Matched before_banner :: Matched []
                   :: init_script init_answers ++ []))) = Ok tt
  /\ _status (snd (on_activate ascii_runtime init_config
                     (initial (Matched before_banner :: Matched []
                               :: init_script init_answers ++ [])))) = 1%Z
  /\ pending (snd (on_activate ascii_runtime init_config
                     (initial (Matched before_banner :: Matched []
                               :: init_script init_answers ++ [])))) = []
  /\ sent (trace (snd (on_activate ascii_runtime init_config
                         (initial (Matched before_banner :: Matched []
                                   :: init_script init_answers ++ [])))))
     = sent [] ++ flat_map (fun c => [c; lit "echo $?"])
                           (init_commands init_config).
Proof.
  refine (@on_activate_runs_init_commands ascii_runtime init_config
            (initial (Matched before_banner :: Matched []
                      :: init_script init_answers ++ []))
            before_banner [] init_answers [] eq_refl eq_refl eq_refl _).
  repeat constructor; vm_compute; discriminate.
Defined.

(** X14: under the same conditions the log gets, in the order of the init
    commands, one record for every command whose status is not 0 (an
    unknown status counts as -1), with that status and the lines of output
    joined by ["\n"], and nothing for a command with status 0. *)
Theorem on_activate_logs_failures (rt : py_runtime) (cfg : config)
    (st : state) (b0 b1 : bytes) (answers : list (bytes * response))
    (rest : list response) :
  _status st = 0%Z ->
  pending st = Matched b0 :: Matched b1 :: init_script answers ++ rest ->
  length answers = length (init_commands cfg) ->
  Forall (fun a => decode_utf8 (fst a) <> None) answers ->
  errors (snd (on_activate rt cfg st))
  = errors st ++ flat_map (init_report rt) answers.
Proof.
  intros H0 Hp Hlen Hdec.
  exact (proj2 (proj2 (proj2 (proj2
           (@on_activate_completes rt cfg st b0 b1 answers rest
              H0 Hp Hlen Hdec))))).
Qed.

Lemma on_activate_logs_failures_witness :
  errors (snd (on_activate ascii_runtime init_config
                 (initial (Matched before_banner :: Matched []
                           :: init_script init_answers ++ []))))
  = [] ++ flat_map (init_report ascii_runtime) init_answers.
Proof.
  refine (@on_activate_logs_failures ascii_runtime init_config
            (initial (Matched before_banner :: Matched []
                      :: init_script init_answers ++ []))
            before_banner [] init_answers [] eq_refl eq_refl eq_refl _).
  repeat constructor; vm_compute; discriminate.
Defined.

(** X15: [deactivate] only resets the status: it makes no console call and
    takes no answer; after it [_run] returns [None] without a console call,
    and so does [run] when its guard [check_active] passes; when the guard
    does not pass, as it does not while labgrid holds the driver
    deactivated, [run] raises [StateError], also without a console call.
    The first console call of the next [activate] is the wait for the boot
    expression. *)
Theorem on_deactivate_resets (rt : py_runtime) (cfg : config) (st : state) :
  let st0 := snd (on_deactivate st) in
  fst (on_deactivate st) = Ok tt
  /\ _status st0 = 0%Z
  /\ trace st0 = trace st /\ pending st0 = pending st
  /\ errors st0 = errors st
  /\ (forall cmd timeout codec decodeerrors,
        _run rt cfg cmd timeout codec decodeerrors st0 = (Ok None, st0))
  /\ (forall active cmd timeout codec decodeerrors,
        run rt cfg active cmd timeout codec decodeerrors st0
        = (if active then Ok None else Raise StateError, st0))
  /\ exists r evs,
       trace (snd (on_activate rt cfg st0))
       = trace st
         ++ Expect (boot_expression cfg) (Some (login_timeout cfg)) r :: evs.
Proof.
  cbv zeta.
  set (st0 := snd (on_deactivate st)).
  assert (Hs : _status st0 = 0%Z) by reflexivity.
  assert (Hq : pending st0 = pending st) by reflexivity.
  assert (Ht : trace st0 = trace st) by reflexivity.
  split; [reflexivity|]. split; [exact Hs|]. split; [exact Ht|].
  assert (R : forall cmd timeout codec de,
             _run rt cfg cmd timeout codec de st0 = (Ok None, st0)).
  { intros cmd timeout codec de. apply _run_not_ready.
    rewrite Hs. discriminate. }
  split; [exact Hq|]. split; [reflexivity|]. split; [exact R|]. split.
  - intros active cmd timeout codec de. destruct active.
    + rewrite run_active. apply R.
    + apply run_not_active.
  - rewrite <- Ht. destruct (pending st0) as [|[before|] rest] eqn:Hp.
    + rewrite on_activate_boot_timeout by (try assumption; congruence).
      eexists. exists []. reflexivity.
    + destruct (@on_activate_boot_seen rt cfg st0 before rest Hs Hp)
        as [_ [evs He]].
      eexists. exists evs. exact He.
    + rewrite on_activate_boot_timeout by (try assumption; congruence).
      eexists. exists []. reflexivity.
Qed.

(** X16: once the boot expression has matched, [activate] leaves the
    status at 1 whether it returns or raises (prompt timeout, timeout or
    undecodable capture in an init command), and the next [activate] makes
    no console call: what was left undone is not done again. *)
Theorem on_activate_not_retried (rt : py_runtime) (cfg : config) (st : state)
    (before : bytes) (rest : list response) :
  _status st = 0%Z ->
  pending st = Matched before :: rest ->
  _status (snd (on_activate rt cfg st)) = 1%Z
  /\ on_activate rt cfg (snd (on_activate rt cfg st))
     = (Ok tt, snd (on_activate rt cfg st)).
Proof.
  intros H0 Hp.
  destruct (on_activate_boot_seen rt cfg st H0 Hp) as [Hs _].
  split; [exact Hs|]. apply on_activate_active. rewrite Hs. discriminate.
Qed.

Lemma on_activate_not_retried_witness :
  _status (snd (on_activate ascii_runtime init_config
                  (initial [Matched before_banner]))) = 1%Z
  /\ on_activate ascii_runtime init_config
       (snd (on_activate ascii_runtime init_config
               (initial [Matched before_banner])))
     = (Ok tt, snd (on_activate ascii_runtime init_config
                      (initial [Matched before_banner]))).
Proof.
  exact (@on_activate_not_retried ascii_runtime init_config
           (initial [Matched before_banner]) before_banner []
           eq_refl eq_refl).
Defined.

(** ** The simulator console *)

(** X17: [_read] on a child that has exited raises [ExecutionError] before
    it reads, so output still in the pipe is not returned; on a running
    child it never raises, returns output that is already there without
    polling, and returns the empty bytes when the first read finds nothing
    and the poll reports no event. *)
Theorem sim_read_behaviour (size timeout : Z) (s : sim_state) :
  (returncode s <> None ->
   fst (_read size timeout s) = ExecutionError
   /\ stdout (snd (_read size timeout s)) = stdout s
   /\ polls (snd (_read size timeout s)) = polls s)
  /\ (returncode s = None ->
      (exists data, fst (_read size timeout s) = Read data)
      /\ (forall d rest, stdout s = Some d :: rest ->
            fst (_read size timeout s) = Read d
            /\ stdout (snd (_read size timeout s)) = rest
            /\ polls (snd (_read size timeout s)) = polls s)
      /\ (forall rest more,
            stdout s = None :: rest -> polls s = false :: more ->
            fst (_read size timeout s) = Read []
            /\ stdout (snd (_read size timeout s)) = rest
            /\ polls (snd (_read size timeout s)) = more)).
Proof.
  unfold _read, child_poll, stdout_read, poll_poll. split.
  - intros H. destruct (returncode s); [|contradiction]. simpl. auto.
  - intros H. rewrite H. simpl. split; [|split].
    + destruct (stdout s) as [|[d|] rest]; simpl;
        try (eexists; reflexivity);
        destruct (polls s) as [|[] more]; simpl; try (eexists; reflexivity);
        destruct rest as [|[d|] rest]; simpl; eexists; reflexivity.
    + intros d rest E. rewrite E. simpl. auto.
    + intros rest more E P. rewrite E, P. simpl. auto.
Qed.

Lemma sim_read_behaviour_witness :
  fst (_read 1024 0 {| returncode := Some 0%Z; stdout := [Some (blit "bye")];
                       polls := []; calls := [] |}) = ExecutionError
  /\ fst (_read 1024 0 {| returncode := None; stdout := [Some (blit "nsh> ")];
                          polls := []; calls := [] |}) = Read (blit "nsh> ")
  /\ fst (_read 1024 0 {| returncode := None; stdout := [None];
                          polls := [false]; calls := [] |}) = Read [].
Proof.
  split; [|split].
  - refine (proj1 (proj1 (sim_read_behaviour 1024 0
                            {| returncode := Some 0%Z;
                               stdout := [Some (blit "bye")];
                               polls := []; calls := [] |}) _)).
    discriminate.
  - exact (proj1 (proj1 (proj2 (proj2 (sim_read_behaviour 1024 0
                            {| returncode := None;
                               stdout := [Some (blit "nsh> ")];
                               polls := []; calls := [] |}) eq_refl))
                          (blit "nsh> ") [] eq_refl)).
  - exact (proj1 (proj2 (proj2 (proj2 (sim_read_behaviour 1024 0
                            {| returncode := None; stdout := [None];
                               polls := [false]; calls := [] |}) eq_refl))
                          [] [] eq_refl eq_refl)).
Defined.
